(** * The publish service: a shallow embedding of its two request handlers

    The repository holds two near-identical HTTP services around one
    [POST /publish] endpoint:

    - [src/push-code-to-db.js], the upsert variant (module [Upsert]);
    - [src/unnamed/part_000], the strict-update variant (module [Strict]).

    Both read a JSON body, pick a database by [env], talk to it through a
    [pg] client and answer with a JSON document.  The development models
    JavaScript values, the [pg] client as an effectful interface over an
    explicit world (tables, clock, scripted faults, trace of calls), and the
    two handlers as programs in a state-and-exception monad. *)

From Stdlib Require Import ZArith Ascii.
From stdpp Require Import base option list strings pretty gmap.

Set Warnings "-register-all".

(** ** JavaScript values *)

(** The values [JSON.parse] can produce, plus [undefined] for absent
    properties and unset configuration variables.  Numbers are kept to the
    integers: the handlers never look inside a number other than to test it
    against zero. *)
Inductive JsVal : Type :=
  | JUndefined
  | JNull
  | JBool (b : bool)
  | JNum (n : Z)
  | JStr (s : string)
  | JArr (items : list JsVal)
  | JObj (props : list (string * JsVal)).

(** [!v] is [negb (truthy v)]: [undefined], [null], [false], [0] and the
    empty string are falsy, everything else (also [[]] and [{}]) is truthy. *)
Definition truthy (v : JsVal) : bool :=
  match v with
  | JUndefined | JNull => false
  | JBool b => b
  | JNum n => negb (n =? 0)%Z
  | JStr s => negb (String.eqb s EmptyString)
  | JArr _ | JObj _ => true
  end.

(** [v !== undefined] *)
Definition defined (v : JsVal) : bool :=
  match v with JUndefined => false | _ => true end.

(** [v === "lit"] for a string literal. *)
Definition strict_eq_str (v : JsVal) (lit : string) : bool :=
  match v with JStr s => String.eqb s lit | _ => false end.

(** [v ?? null] *)
Definition nullish_null (v : JsVal) : JsVal :=
  match v with JUndefined | JNull => JNull | _ => v end.

(** Property read [o.k], as object destructuring performs it on a value
    that is neither [null] nor [undefined]: own property of an object,
    [undefined] on anything else the parser can return. *)
Fixpoint assoc (k : string) (ps : list (string * JsVal)) : JsVal :=
  match ps with
  | [] => JUndefined
  | (k', v) :: ps' => if String.eqb k k' then v else assoc k ps'
  end.

Definition get_prop (o : JsVal) (k : string) : JsVal :=
  match o with JObj ps => assoc k ps | _ => JUndefined end.

(** Structural equality of values; the tables below compare the key column
    with the bound parameter through it.  The database itself compares the
    texts the driver sends ([prepareValue]); the two comparisons agree
    whenever the stored key and the parameter are both strings. *)
Fixpoint jsval_eqb (a b : JsVal) : bool :=
  match a, b with
  | JUndefined, JUndefined => true
  | JNull, JNull => true
  | JBool x, JBool y => Bool.eqb x y
  | JNum x, JNum y => (x =? y)%Z
  | JStr x, JStr y => String.eqb x y
  | JArr xs, JArr ys =>
      (fix go (xs ys : list JsVal) : bool :=
         match xs, ys with
         | [], [] => true
         | x :: xs', y :: ys' => jsval_eqb x y && go xs' ys'
         | _, _ => false
         end) xs ys
  | JObj ps, JObj qs =>
      (fix go (ps qs : list (string * JsVal)) : bool :=
         match ps, qs with
         | [], [] => true
         | (k, x) :: ps', (k', y) :: qs' =>
             String.eqb k k' && jsval_eqb x y && go ps' qs'
         | _, _ => false
         end) ps qs
  | _, _ => false
  end.

(** ** [JSON.stringify] *)

Definition hex_digit (n : N) : ascii :=
  match n with
  | 0 => "0" | 1 => "1" | 2 => "2" | 3 => "3" | 4 => "4" | 5 => "5"
  | 6 => "6" | 7 => "7" | 8 => "8" | 9 => "9" | 10 => "a" | 11 => "b"
  | 12 => "c" | 13 => "d" | 14 => "e" | _ => "f"
  end%char%N.

Definition dquote : ascii := ascii_of_N 34.
Definition backslash : ascii := ascii_of_N 92.

(** Escapes of a string literal: the quote, the backslash, the five short
    control escapes, and the four-digit form for the other control
    characters. *)
Definition escape_char (c : ascii) : string :=
  let n := N_of_ascii c in
  if (n =? 34)%N then String backslash (String dquote EmptyString)
  else if (n =? 92)%N then String backslash (String backslash EmptyString)
  else if (n =? 8)%N then String backslash "b"
  else if (n =? 9)%N then String backslash "t"
  else if (n =? 10)%N then String backslash "n"
  else if (n =? 12)%N then String backslash "f"
  else if (n =? 13)%N then String backslash "r"
  else if (n <? 32)%N then
    String backslash
      ("u00" +:+ String (hex_digit (n / 16))
                   (String (hex_digit (n mod 16)) EmptyString))
  else String c EmptyString.

Fixpoint escape (s : string) : string :=
  match s with
  | EmptyString => EmptyString
  | String c s' => escape_char c +:+ escape s'
  end.

Definition quote (s : string) : string :=
  String dquote (escape s +:+ String dquote EmptyString).

(** [xs.join(sep)] *)
Definition join (sep : string) (xs : list string) : string :=
  match xs with
  | [] => EmptyString
  | x :: xs' => fold_left (fun acc y => acc +:+ sep +:+ y) xs' x
  end.

(** On a parsed document [JSON.stringify] always yields a string.  The
    handlers never call it on [undefined]; nested [undefined] cannot come
    out of [JSON.parse] and is printed as an array hole would be.  Numbers
    are printed in decimal, as JavaScript prints integers of magnitude below
    [10^21]. *)
Fixpoint JSON_stringify (v : JsVal) : string :=
  match v with
  | JUndefined | JNull => "null"
  | JBool true => "true"
  | JBool false => "false"
  | JNum n => pretty n
  | JStr s => quote s
  | JArr xs => "[" +:+ join "," (map JSON_stringify xs) +:+ "]"
  | JObj ps =>
      "{" +:+ join ","
        (map (fun p => quote (fst p) +:+ ":" +:+ JSON_stringify (snd p)) ps)
      +:+ "}"
  end.

(** ** The driver's encoding of a bound value *)

(** [escapeElement] of the [pg] driver: an array element between double
    quotes, with backslashes and double quotes escaped. *)
Fixpoint escape_element_chars (s : string) : string :=
  match s with
  | EmptyString => EmptyString
  | String c s' =>
      let n := N_of_ascii c in
      if ((n =? 92) || (n =? 34))%N
      then String backslash (String c (escape_element_chars s'))
      else String c (escape_element_chars s')
  end.

Definition escapeElement (s : string) : string :=
  String dquote (escape_element_chars s +:+ String dquote EmptyString).

(** [prepareValue] of the [pg] driver, on the values a handler can bind: the
    text sent to the database for a parameter, or [None] for SQL [NULL].
    [null] and [undefined] are [NULL]; an array becomes a PostgreSQL array
    literal (the empty array is the text [{}]); any other object becomes its
    JSON text; strings, numbers and booleans become their [toString()]. *)
Fixpoint prepareValue (v : JsVal) : option string :=
  match v with
  | JUndefined | JNull => None
  | JBool true => Some "true"
  | JBool false => Some "false"
  | JNum n => Some (pretty n)
  | JStr s => Some s
  | JArr xs =>
      Some ("{" +:+ join ","
              (map (fun x =>
                      match x with
                      | JUndefined | JNull => "NULL"
                      | JArr _ => default EmptyString (prepareValue x)
                      | _ => escapeElement
                               (default EmptyString (prepareValue x))
                      end) xs)
            +:+ "}")
  | JObj _ => Some (JSON_stringify v)
  end.

(** ** The [app] table and the statements the handlers send *)

(** One row of the [app] table.  A column holds the value that was bound to
    it -- the database receives [prepareValue] of that value -- and the two
    timestamp columns hold a reading of the database clock. *)
Record AppRecord : Type := {
  app_name : JsVal;
  app_id : JsVal;
  app_version : JsVal;
  app_code : JsVal;
  has_triggers : JsVal;
  has_actions : JsVal;
  git_sha : JsVal;
  tags : JsVal;
  created_at : nat;
  updated_at : nat
}.

(** The columns an [UPDATE] may assign from a bound parameter. *)
Inductive Column : Type :=
  | c_app_name | c_app_version | c_app_code
  | c_has_triggers | c_has_actions | c_git_sha | c_tags.

Definition column_name (c : Column) : string :=
  match c with
  | c_app_name => "app_name"
  | c_app_version => "app_version"
  | c_app_code => "app_code"
  | c_has_triggers => "has_triggers"
  | c_has_actions => "has_actions"
  | c_git_sha => "git_sha"
  | c_tags => "tags"
  end.

Inductive TimeFn : Type := CURRENT_TIMESTAMP | NOW.

(** One item of a [SET] list: [col = $k], [col = $k::jsonb], or
    [updated_at = <time function>]. *)
Inductive SetItem : Type :=
  | SetParam (c : Column) (placeholder : nat) (jsonb : bool)
  | SetUpdatedAt (f : TimeFn).

(** The text each item stands for, as the template literals build it. *)
Definition render_set (s : SetItem) : string :=
  match s with
  | SetParam c k false => column_name c +:+ " = $" +:+ pretty k
  | SetParam c k true => column_name c +:+ " = $" +:+ pretty k +:+ "::jsonb"
  | SetUpdatedAt CURRENT_TIMESTAMP => "updated_at = CURRENT_TIMESTAMP"
  | SetUpdatedAt NOW => "updated_at = NOW()"
  end.

Definition render_set_list (sets : list SetItem) : string :=
  join ", " (map render_set sets).

Definition render_where (k : nat) : string := "WHERE app_id = $" +:+ pretty k.

(** The three statement shapes:
    - [SELECT app_id FROM app WHERE app_id = $1];
    - [UPDATE app SET <sets> WHERE app_id = $k RETURNING app_id, updated_at];
    - [INSERT INTO app (app_name, app_id, app_version, app_code,
      has_triggers, has_actions, git_sha, tags, created_at, updated_at)
      VALUES ($1, ..., $8, CURRENT_TIMESTAMP, CURRENT_TIMESTAMP)
      RETURNING app_id, created_at]. *)
Inductive Query : Type :=
  | SelectAppId
  | Update (sets : list SetItem) (where_placeholder : nat)
  | Insert.


(** A returned row: the columns of the [RETURNING] (or [SELECT]) list. *)
Record Row : Type := {
  row_app_id : JsVal;
  row_created_at : option nat;
  row_updated_at : option nat
}.

Record QueryResult : Type := { rowCount : nat; rows : list Row }.

(** [$k] in a statement is the [k]-th bound value, counted from one. *)
Definition param (params : list JsVal) (k : nat) : option JsVal :=
  match k with 0 => None | S j => params !! j end.

Definition set_column (c : Column) (v : JsVal) (r : AppRecord) : AppRecord :=
  match c with
  | c_app_name =>
      {| app_name := v; app_id := app_id r; app_version := app_version r;
         app_code := app_code r; has_triggers := has_triggers r;
         has_actions := has_actions r; git_sha := git_sha r; tags := tags r;
         created_at := created_at r; updated_at := updated_at r |}
  | c_app_version =>
      {| app_name := app_name r; app_id := app_id r; app_version := v;
         app_code := app_code r; has_triggers := has_triggers r;
         has_actions := has_actions r; git_sha := git_sha r; tags := tags r;
         created_at := created_at r; updated_at := updated_at r |}
  | c_app_code =>
      {| app_name := app_name r; app_id := app_id r;
         app_version := app_version r; app_code := v;
         has_triggers := has_triggers r; has_actions := has_actions r;
         git_sha := git_sha r; tags := tags r;
         created_at := created_at r; updated_at := updated_at r |}
  | c_has_triggers =>
      {| app_name := app_name r; app_id := app_id r;
         app_version := app_version r; app_code := app_code r;
         has_triggers := v; has_actions := has_actions r;
         git_sha := git_sha r; tags := tags r;
         created_at := created_at r; updated_at := updated_at r |}
  | c_has_actions =>
      {| app_name := app_name r; app_id := app_id r;
         app_version := app_version r; app_code := app_code r;
         has_triggers := has_triggers r; has_actions := v;
         git_sha := git_sha r; tags := tags r;
         created_at := created_at r; updated_at := updated_at r |}
  | c_git_sha =>
      {| app_name := app_name r; app_id := app_id r;
         app_version := app_version r; app_code := app_code r;
         has_triggers := has_triggers r; has_actions := has_actions r;
         git_sha := v; tags := tags r;
         created_at := created_at r; updated_at := updated_at r |}
  | c_tags =>
      {| app_name := app_name r; app_id := app_id r;
         app_version := app_version r; app_code := app_code r;
         has_triggers := has_triggers r; has_actions := has_actions r;
         git_sha := git_sha r; tags := v;
         created_at := created_at r; updated_at := updated_at r |}
  end.

Definition set_updated_at (t : nat) (r : AppRecord) : AppRecord :=
  {| app_name := app_name r; app_id := app_id r;
     app_version := app_version r; app_code := app_code r;
     has_triggers := has_triggers r; has_actions := has_actions r;
     git_sha := git_sha r; tags := tags r;
     created_at := created_at r; updated_at := t |}.

(** A [SET] item with its parameter looked up: a function on rows, or
    nothing when the statement names a parameter that was not bound. *)
Definition resolve_set (now : nat) (params : list JsVal) (s : SetItem)
  : option (AppRecord -> AppRecord) :=
  match s with
  | SetParam c k _ => v ← param params k; Some (set_column c v)
  | SetUpdatedAt _ => Some (set_updated_at now)
  end.

Definition matches (key : JsVal) (r : AppRecord) : bool :=
  jsval_eqb (app_id r) key.

Definition apply_all (fs : list (AppRecord -> AppRecord)) (r : AppRecord)
  : AppRecord := fold_left (fun acc f => f acc) fs r.

(** What [RETURNING app_id, updated_at] yields for a row. *)
Definition returned_row (r : AppRecord) : Row :=
  {| row_app_id := app_id r; row_created_at := None;
     row_updated_at := Some (updated_at r) |}.

Definition bind_error : string :=
  "bind message does not supply the parameters the statement requires".
Definition unique_violation : string :=
  "duplicate key value violates unique constraint".

(** What the database does with a statement at clock reading [now]: the
    result set and the new table, or the message of the error it raises. *)
Definition exec (q : Query) (params : list JsVal) (now : nat)
    (t : list AppRecord) : string + (QueryResult * list AppRecord) :=
  match q with
  | SelectAppId =>
      match param params 1 with
      | None => inl bind_error
      | Some key =>
          let hit := filter (fun r => matches key r = true) t in
          inr ({| rowCount := length hit;
                  rows := map (fun r => {| row_app_id := app_id r;
                                           row_created_at := None;
                                           row_updated_at := None |}) hit |},
               t)
      end
  | Update sets k =>
      match mapM (resolve_set now params) sets, param params k with
      | Some fs, Some key =>
          let upd r := if matches key r then apply_all fs r else r in
          let hit := filter (fun r => matches key r = true) (map upd t) in
          inr ({| rowCount := length hit;
                  rows := map returned_row hit |},
               map upd t)
      | _, _ => inl bind_error
      end
  | Insert =>
      match params with
      | [p1; p2; p3; p4; p5; p6; p7; p8] =>
          if existsb (matches p2) t then inl unique_violation
          else
            inr ({| rowCount := 1;
                    rows := [{| row_app_id := p2;
                                row_created_at := Some now;
                                row_updated_at := None |}] |},
                 t ++ [{| app_name := p1; app_id := p2; app_version := p3;
                          app_code := p4; has_triggers := p5;
                          has_actions := p6; git_sha := p7; tags := p8;
                          created_at := now; updated_at := now |}])
      | _ => inl bind_error
      end
  end.

(** ** The world the handlers run in *)

(** Calls on the [pg] client, in the order they are made. *)
Inductive Event : Type :=
  | EvConnect (connectionString : string)
  | EvQuery (q : Query) (params : list JsVal)
  | EvEnd.

(** - [stores]: the [app] table behind each connection string (no entry: an
      empty table);
    - [clock]: the database clock, read by every statement and advanced after
      it;
    - [faults]: what the next [connect] or [query] calls do, one entry per
      call: [Some msg] makes the call reject with that message, [None] (or a
      used-up script) lets it through;
    - [trace]: the client calls made so far. *)
Record World : Type := {
  stores : gmap string (list AppRecord);
  clock : nat;
  faults : list (option string);
  trace : list Event
}.

Definition table_of (w : World) (url : string) : list AppRecord :=
  default [] (stores w !! url).

(** ** Programs that mutate a state and may throw *)

Inductive Result (A : Type) : Type :=
  | Ok (a : A)
  | Throw (message : string).
Arguments Ok {A} a.
Arguments Throw {A} message.

Definition M (S A : Type) : Type := S -> Result A * S.

Definition ret {S A} (a : A) : M S A := fun s => (Ok a, s).

Definition bind {S A B} (c : M S A) (k : A -> M S B) : M S B :=
  fun s => match c s with
           | (Ok a, s') => k a s'
           | (Throw e, s') => (Throw e, s')
           end.

Definition throw {S A} (message : string) : M S A :=
  fun s => (Throw message, s).

(** [try { body } catch (error) { handler error }] *)
Definition try_catch {S A} (body : M S A) (handler : string -> M S A)
  : M S A :=
  fun s => match body s with
           | (Ok a, s') => (Ok a, s')
           | (Throw e, s') => handler e s'
           end.

(** [try { body } finally { cleanup }]: the cleanup runs on every exit of
    the body; the body's outcome stands unless the cleanup itself throws. *)
Definition try_finally {S A} (body : M S A) (cleanup : M S unit) : M S A :=
  fun s => match body s with
           | (r, s') =>
               match cleanup s' with
               | (Ok _, s'') => (r, s'')
               | (Throw e, s'') => (Throw e, s'')
               end
           end.

Declare Scope prog_scope.
Delimit Scope prog_scope with prog.
Notation "'let*' x := c 'in' k" := (bind c (fun x => k))
  (at level 10, x name, c at level 100, k at level 200) : prog_scope.
Notation "c ;; k" := (bind c (fun _ => k))
  (at level 100, k at level 200, right associativity) : prog_scope.

(** ** The [pg] client *)

Definition record_call (e : Event) : M World unit :=
  fun w => (Ok tt, {| stores := stores w; clock := clock w;
                      faults := faults w; trace := trace w ++ [e] |}).

(** Consume one entry of the fault script. *)
Definition io : M World unit :=
  fun w =>
    match faults w with
    | [] => (Ok tt, w)
    | f :: rest =>
        let w' := {| stores := stores w; clock := clock w;
                     faults := rest; trace := trace w |} in
        match f with
        | Some msg => (Throw msg, w')
        | None => (Ok tt, w')
        end
    end.

(** [await client.connect()] *)
Definition client_connect (url : string) : M World unit :=
  (record_call (EvConnect url);; io)%prog.

(** [await client.query(q, params)] *)
Definition client_query (url : string) (q : Query) (params : list JsVal)
  : M World QueryResult :=
  (record_call (EvQuery q params);;
   io;;
   fun w =>
     match exec q params (clock w) (table_of w url) with
     | inl msg => (Throw msg, w)
     | inr (res, t') =>
         (Ok res, {| stores := match q with
                               | SelectAppId => stores w
                               | _ => <[url := t']> (stores w)
                               end;
                     clock := S (clock w);
                     faults := faults w; trace := trace w |})
     end)%prog.

(** [await client.end()]; closing is taken to succeed. *)
Definition client_end : M World unit := record_call EvEnd.

(** ** Requests, configuration, responses *)

(** [payload] is what [readBody] finds: [None] when the body is not JSON. *)
Record Request : Type := {
  method : string;
  url : string;
  payload : option JsVal
}.

(** The three variables of [process.env] that [getDbUrl] reads; [None] is an
    unset variable. *)
Record ProcessEnv : Type := {
  PRESTAGING_DB_URL : option string;
  STAGING_DB_URL : option string;
  PRODUCTION_DB_URL : option string
}.

Definition env_var (v : option string) : JsVal :=
  match v with Some s => JStr s | None => JUndefined end.

Definition getDbUrl (cfg : ProcessEnv) (env : JsVal) : JsVal :=
  if strict_eq_str env "prestaging" then env_var (PRESTAGING_DB_URL cfg)
  else if strict_eq_str env "staging" then env_var (STAGING_DB_URL cfg)
  else if strict_eq_str env "production" then env_var (PRODUCTION_DB_URL cfg)
  else JNull.

(** The connection string a client is built from.  [getDbUrl] only yields
    strings, [undefined] and [null], and only a truthy result reaches
    [new Client]. *)
Definition connection_string (databaseUrl : JsVal) : string :=
  match databaseUrl with JStr s => s | _ => EmptyString end.

(** The JSON documents the handlers answer with. *)
Inductive Body : Type :=
  | BText (text : string)
  | BFailure (error : string)
  | BUpdated (environment appId : JsVal) (updatedAt : option nat)
  | BCreated (environment appId : JsVal) (createdAt : option nat)
  | BStrictUpdated (environment appId : JsVal) (updatedAt : option nat).

Record Response : Type := { status : nat; body : Body }.

Definition not_found : Response :=
  {| status := 404; body := BText "Not found" |}.
Definition bad_request (error : string) : Response :=
  {| status := 400; body := BFailure error |}.

(** [error.message || "Internal server error"] *)
Definition message_or_default (message : string) : string :=
  if String.eqb message EmptyString then "Internal server error" else message.

(** The [catch] block of both handlers. *)
Definition internal_error (message : string) : Response :=
  {| status := 500; body := BFailure (message_or_default message) |}.

(** [readBody]: the parsed body, or the rejection [Invalid JSON]. *)
Definition readBody {S} (req : Request) : M S JsVal :=
  match payload req with
  | Some v => ret v
  | None => throw "Invalid JSON"
  end.

(** Destructuring [null] throws a [TypeError]; the text is the engine's. *)
Definition destructure_null : string :=
  "Cannot destructure property 'env' of 'body' as it is null.".

(** Reading [rows[0].app_id] when no row came back throws a [TypeError].
    In the worlds modelled here a write that follows a successful existence
    check always returns a row (nothing else touches the table in between),
    so no run takes this path. *)
Definition no_first_row : string :=
  "Cannot read properties of undefined (reading 'app_id')".

Definition first_row {S} (res : QueryResult) : M S Row :=
  match rows res with
  | r :: _ => ret r
  | [] => throw no_first_row
  end.

(** ** The upsert variant: [src/push-code-to-db.js] *)

Module Upsert.

(** The nine variables the handler destructures from the body. *)
Record Descriptor : Type := {
  env : JsVal;
  appId : JsVal;
  appName : JsVal;
  appVersion : JsVal;
  appCode : JsVal;
  hasTriggers : JsVal;
  hasActions : JsVal;
  gitSha : JsVal;
  tags : JsVal
}.

Definition fields (body : JsVal) : Descriptor :=
  {| env := get_prop body "env";
     appId := get_prop body "appId";
     appName := get_prop body "appName";
     appVersion := get_prop body "appVersion";
     appCode := get_prop body "appCode";
     hasTriggers := get_prop body "hasTriggers";
     hasActions := get_prop body "hasActions";
     gitSha := get_prop body "gitSha";
     tags := get_prop body "tags" |}.

(** [const { env, appId, ... } = body] *)
Definition destructure {S} (body : JsVal) : M S Descriptor :=
  match body with
  | JNull | JUndefined => throw destructure_null
  | _ => ret (fields body)
  end.

(** The handler's state: the world and its local variable [client], which
    is declared before the [try] and read by the [finally]. *)
Record Frame : Type := { world : World; client : option string }.

Definition lift {A} (c : M World A) : M Frame A :=
  fun fr => match c (world fr) with
            | (r, w) => (r, {| world := w; client := client fr |})
            end.

(** [client = new Client({ connectionString: databaseUrl })] *)
Definition assign_client (connectionString : string) : M Frame unit :=
  fun fr => (Ok tt, {| world := world fr; client := Some connectionString |}).

(** The three locals of the update branch: [updates], [values], [idx]. *)
Record UpdateSet : Type := {
  updates : list SetItem;
  values : list JsVal;
  idx : nat
}.

(** [if (v !== undefined) { updates.push(`col = $${idx++}`);
    values.push(bound); }] *)
Definition push_if_defined (c : Column) (jsonb : bool) (v bound : JsVal)
    (st : UpdateSet) : UpdateSet :=
  if defined v then
    {| updates := updates st ++ [SetParam c (idx st) jsonb];
       values := values st ++ [bound];
       idx := S (idx st) |}
  else st.

Definition build_update_set (d : Descriptor) : UpdateSet :=
  let st := {| updates := []; values := []; idx := 1 |} in
  let st := push_if_defined c_app_name false (appName d) (appName d) st in
  let st :=
    push_if_defined c_app_version false (appVersion d) (appVersion d) st in
  let st := push_if_defined c_app_code false (appCode d) (appCode d) st in
  let st :=
    push_if_defined c_has_triggers false (hasTriggers d) (hasTriggers d) st in
  let st :=
    push_if_defined c_has_actions false (hasActions d) (hasActions d) st in
  let st := push_if_defined c_git_sha false (gitSha d) (gitSha d) st in
  let st :=
    push_if_defined c_tags true (tags d) (JStr (JSON_stringify (tags d))) st in
  st.

(** [updates] after [updates.push(`updated_at = CURRENT_TIMESTAMP`)]. *)
Definition update_sets (d : Descriptor) : list SetItem :=
  updates (build_update_set d) ++ [SetUpdatedAt CURRENT_TIMESTAMP].

Definition updateQuery (d : Descriptor) : Query :=
  Update (update_sets d) (idx (build_update_set d)).

(** [values] after [values.push(appId)]. *)
Definition update_values (d : Descriptor) : list JsVal :=
  values (build_update_set d) ++ [appId d].

Definition update_branch (d : Descriptor) (conn : string)
  : M Frame Response :=
  if length (update_sets d) =? 1 then throw "No fields provided to update"
  else
    (let* result := lift (client_query conn (updateQuery d) (update_values d)) in
     let* row := first_row result in
     ret {| status := 200;
            body := BUpdated (env d) (row_app_id row) (row_updated_at row) |}
    )%prog.

Definition insertValues (d : Descriptor) : list JsVal :=
  [ appName d;
    appId d;
    appVersion d;
    appCode d;
    hasTriggers d;
    hasActions d;
    nullish_null (gitSha d);
    if truthy (tags d) then JStr (JSON_stringify (tags d)) else JArr [] ].

Definition creation_fields_error : string :=
  "appName, appVersion and appCode are required when creating a new app".

Definition insert_branch (d : Descriptor) (conn : string)
  : M Frame Response :=
  if negb (truthy (appName d)) || negb (truthy (appVersion d))
     || negb (truthy (appCode d)) || negb (truthy (hasTriggers d))
     || negb (truthy (hasActions d))
  then ret (bad_request creation_fields_error)
  else
    (let* insertResult := lift (client_query conn Insert (insertValues d)) in
     let* row := first_row insertResult in
     ret {| status := 200;
            body := BCreated (env d) (row_app_id row) (row_created_at row) |}
    )%prog.

Definition missing_fields_error : string :=
  "Missing required fields: env, appId".

Definition try_block (cfg : ProcessEnv) (req : Request) : M Frame Response :=
  (let* body := readBody req in
   let* d := destructure body in
   if negb (truthy (env d)) || negb (truthy (appId d))
   then ret (bad_request missing_fields_error)
   else
     let databaseUrl := getDbUrl cfg (env d) in
     if negb (truthy databaseUrl)
     then ret (bad_request "Invalid environment")
     else
       let conn := connection_string databaseUrl in
       assign_client conn;;
       lift (client_connect conn);;
       let* existsResult := lift (client_query conn SelectAppId [appId d]) in
       if 0 <? rowCount existsResult
       then update_branch d conn
       else insert_branch d conn)%prog.

Definition catch_block (message : string) : M Frame Response :=
  ret (internal_error message).

(** [if (client) { await client.end(); }] *)
Definition finally_block : M Frame unit :=
  fun fr => match client fr with
            | Some _ => lift client_end fr
            | None => (Ok tt, fr)
            end.

Definition handler (cfg : ProcessEnv) (req : Request) : M World Response :=
  fun w =>
    if negb (String.eqb (method req) "POST")
       || negb (String.eqb (url req) "/publish")
    then (Ok not_found, w)
    else
      match try_finally (try_catch (try_block cfg req) catch_block)
              finally_block {| world := w; client := None |} with
      | (r, fr) => (r, world fr)
      end.

End Upsert.

(** ** The strict-update variant: [src/unnamed/part_000] *)

Module Strict.

Record Descriptor : Type := {
  env : JsVal;
  appId : JsVal;
  appCode : JsVal
}.

Definition fields (body : JsVal) : Descriptor :=
  {| env := get_prop body "env";
     appId := get_prop body "appId";
     appCode := get_prop body "appCode" |}.

(** [const { env, appId, appCode } = body] *)
Definition destructure {S} (body : JsVal) : M S Descriptor :=
  match body with
  | JNull | JUndefined => throw destructure_null
  | _ => ret (fields body)
  end.

Definition missing_fields_error : string :=
  "Missing required fields: env, appId, appCode".

(** [UPDATE app SET app_code = $1, updated_at = NOW() WHERE app_id = $2
    RETURNING app_id, updated_at] *)
Definition query : Query :=
  Update [SetParam c_app_code 1 false; SetUpdatedAt NOW] 2.

Definition values (d : Descriptor) : list JsVal := [appCode d; appId d].

Definition app_not_found : Response :=
  {| status := 404; body := BFailure "App not found" |}.

Definition try_block (cfg : ProcessEnv) (req : Request) : M World Response :=
  (let* body := readBody req in
   let* d := destructure body in
   if negb (truthy (env d)) || negb (truthy (appId d))
      || negb (truthy (appCode d))
   then ret (bad_request missing_fields_error)
   else
     let databaseUrl := getDbUrl cfg (env d) in
     if negb (truthy databaseUrl)
     then ret (bad_request "Invalid environment")
     else
       let conn := connection_string databaseUrl in
       client_connect conn;;
       let* result := client_query conn query (values d) in
       client_end;;
       if rowCount result =? 0
       then ret app_not_found
       else
         let* row := first_row result in
         ret {| status := 200;
                body := BStrictUpdated (env d) (row_app_id row)
                          (row_updated_at row) |})%prog.

Definition catch_block (message : string) : M World Response :=
  ret (internal_error message).

Definition handler (cfg : ProcessEnv) (req : Request) : M World Response :=
  fun w =>
    if negb (String.eqb (method req) "POST")
       || negb (String.eqb (url req) "/publish")
    then (Ok not_found, w)
    else try_catch (try_block cfg req) catch_block w.

End Strict.

(** ** Counting acquisitions and releases in a trace *)

Definition is_connect (e : Event) : bool :=
  match e with EvConnect _ => true | _ => false end.
Definition is_end (e : Event) : bool :=
  match e with EvEnd => true | _ => false end.

Definition count (p : Event -> bool) (tr : list Event) : nat :=
  length (List.filter p tr).

Definition acquires (tr : list Event) : nat := count is_connect tr.
Definition releases (tr : list Event) : nat := count is_end tr.

(** A [POST /publish] request carrying a parsed body. *)
Definition post (body : JsVal) : Request :=
  {| method := "POST"; url := "/publish"; payload := Some body |}.

(** ** The update set, described without the running index *)

(** One optional field of the update branch: its column, whether the
    placeholder carries the [::jsonb] cast, the destructured variable the
    branch tests, and the value it binds. *)
Record Optional : Type := {
  opt_column : Column;
  opt_jsonb : bool;
  opt_value : JsVal;
  opt_bound : JsVal
}.

(** The seven optional fields, in the order the branch goes through them. *)
Definition optional_fields (d : Upsert.Descriptor) : list Optional :=
  [ {| opt_column := c_app_name; opt_jsonb := false;
       opt_value := Upsert.appName d; opt_bound := Upsert.appName d |};
    {| opt_column := c_app_version; opt_jsonb := false;
       opt_value := Upsert.appVersion d; opt_bound := Upsert.appVersion d |};
    {| opt_column := c_app_code; opt_jsonb := false;
       opt_value := Upsert.appCode d; opt_bound := Upsert.appCode d |};
    {| opt_column := c_has_triggers; opt_jsonb := false;
       opt_value := Upsert.hasTriggers d;
       opt_bound := Upsert.hasTriggers d |};
    {| opt_column := c_has_actions; opt_jsonb := false;
       opt_value := Upsert.hasActions d; opt_bound := Upsert.hasActions d |};
    {| opt_column := c_git_sha; opt_jsonb := false;
       opt_value := Upsert.gitSha d; opt_bound := Upsert.gitSha d |};
    {| opt_column := c_tags; opt_jsonb := true;
       opt_value := Upsert.tags d;
       opt_bound := JStr (JSON_stringify (Upsert.tags d)) |} ].

Definition is_present (o : Optional) : bool := defined (opt_value o).

(** The optional fields the descriptor carries, in that order. *)
Definition present (d : Upsert.Descriptor) : list Optional :=
  List.filter is_present (optional_fields d).

(** The assignment of the field at position [i] (from zero): it names
    placeholder [$(i+1)]. *)
Definition assignment (i : nat) (o : Optional) : SetItem :=
  SetParam (opt_column o) (S i) (opt_jsonb o).

(** [push_if_defined] on a field of the table above. *)
Definition push_optional (st : Upsert.UpdateSet) (o : Optional)
  : Upsert.UpdateSet :=
  Upsert.push_if_defined (opt_column o) (opt_jsonb o) (opt_value o)
    (opt_bound o) st.

(** ** Row transformers used to describe updates *)

(** [t] with [F] applied to the rows whose key is [key]. *)
Definition touch (key : JsVal) (F : AppRecord -> AppRecord)
    (t : list AppRecord) : list AppRecord :=
  map (fun r => if matches key r then F r else r) t.

(** [r] with a new [git_sha] and [updated_at], every other column kept. *)
Definition with_git_sha (g : JsVal) (now : nat) (r : AppRecord) : AppRecord :=
  {| app_name := app_name r; app_id := app_id r;
     app_version := app_version r; app_code := app_code r;
     has_triggers := has_triggers r; has_actions := has_actions r;
     git_sha := g; tags := tags r;
     created_at := created_at r; updated_at := now |}.

(** [r] with a new [app_code] and [updated_at], every other column kept. *)
Definition with_app_code (c : JsVal) (now : nat) (r : AppRecord) : AppRecord :=
  {| app_name := app_name r; app_id := app_id r;
     app_version := app_version r; app_code := c;
     has_triggers := has_triggers r; has_actions := has_actions r;
     git_sha := git_sha r; tags := tags r;
     created_at := created_at r; updated_at := now |}.

(** ** Columns read back; the rows the two branches write *)

Definition get_column (c : Column) (r : AppRecord) : JsVal :=
  match c with
  | c_app_name => app_name r
  | c_app_version => app_version r
  | c_app_code => app_code r
  | c_has_triggers => has_triggers r
  | c_has_actions => has_actions r
  | c_git_sha => git_sha r
  | c_tags => tags r
  end.

(** What the assignment of an optional field does to a row. *)
Definition setter (o : Optional) : AppRecord -> AppRecord :=
  set_column (opt_column o) (opt_bound o).

(** A row after the update branch's statement for [d], run at [now]. *)
Definition updated_row (d : Upsert.Descriptor) (now : nat) (r : AppRecord)
  : AppRecord :=
  set_updated_at now (apply_all (map setter (present d)) r).

(** The row the creation branch's statement for [d] adds, run at [now]. *)
Definition created_row (d : Upsert.Descriptor) (now : nat) : AppRecord :=
  {| app_name := Upsert.appName d;
     app_id := Upsert.appId d;
     app_version := Upsert.appVersion d;
     app_code := Upsert.appCode d;
     has_triggers := Upsert.hasTriggers d;
     has_actions := Upsert.hasActions d;
     git_sha := nullish_null (Upsert.gitSha d);
     tags := if truthy (Upsert.tags d)
             then JStr (JSON_stringify (Upsert.tags d)) else JArr [];
     created_at := now;
     updated_at := now |}.

(** Every key of the table is a string. *)
Definition string_keyed (t : list AppRecord) : Prop :=
  forall r, r ∈ t -> exists s, app_id r = JStr s.

(** [conn] is a non-empty value of one of the three [*_DB_URL] variables. *)
Definition configured (cfg : ProcessEnv) (conn : string) : Prop :=
  conn <> EmptyString
  /\ (PRESTAGING_DB_URL cfg = Some conn \/ STAGING_DB_URL cfg = Some conn
      \/ PRODUCTION_DB_URL cfg = Some conn).

(** The request is a [POST] to [/publish]. *)
Definition on_route (req : Request) : bool :=
  String.eqb (method req) "POST" && String.eqb (url req) "/publish".

(** ** The ways a run against the store can end *)

(** Every way the upsert [try] block can end once [client] is assigned, for
    descriptor [d], connection string [conn] and starting world [w]: the
    outcome of the block and the world it leaves. *)
Inductive store_outcome (d : Upsert.Descriptor) (conn : string) (w : World)
  : Result Response -> World -> Prop :=
  | SO_connect_failed msg w2 :
      stores w2 = stores w ->
      trace w2 = trace w ++ [EvConnect conn] ->
      store_outcome d conn w (Throw msg) w2
  | SO_select_failed msg w2 :
      stores w2 = stores w ->
      trace w2 = trace w ++ [EvConnect conn;
                             EvQuery SelectAppId [Upsert.appId d]] ->
      store_outcome d conn w (Throw msg) w2
  | SO_empty_update w2 :
      filter (fun r => matches (Upsert.appId d) r = true) (table_of w conn)
      <> [] ->
      present d = [] ->
      stores w2 = stores w ->
      trace w2 = trace w ++ [EvConnect conn;
                             EvQuery SelectAppId [Upsert.appId d]] ->
      store_outcome d conn w (Throw "No fields provided to update") w2
  | SO_update_failed msg w2 :
      filter (fun r => matches (Upsert.appId d) r = true) (table_of w conn)
      <> [] ->
      stores w2 = stores w ->
      trace w2 = trace w ++ [EvConnect conn;
                             EvQuery SelectAppId [Upsert.appId d];
                             EvQuery (Upsert.updateQuery d)
                               (Upsert.update_values d)] ->
      store_outcome d conn w (Throw msg) w2
  | SO_updated now w2 :
      filter (fun r => matches (Upsert.appId d) r = true) (table_of w conn)
      <> [] ->
      present d <> [] ->
      stores w2
      = <[conn := touch (Upsert.appId d) (updated_row d now)
                    (table_of w conn)]> (stores w) ->
      trace w2 = trace w ++ [EvConnect conn;
                             EvQuery SelectAppId [Upsert.appId d];
                             EvQuery (Upsert.updateQuery d)
                               (Upsert.update_values d)] ->
      store_outcome d conn w
        (Ok {| status := 200;
               body := BUpdated (Upsert.env d) (Upsert.appId d) (Some now) |})
        w2
  | SO_refused w2 :
      filter (fun r => matches (Upsert.appId d) r = true) (table_of w conn)
      = [] ->
      stores w2 = stores w ->
      trace w2 = trace w ++ [EvConnect conn;
                             EvQuery SelectAppId [Upsert.appId d]] ->
      store_outcome d conn w
        (Ok (bad_request Upsert.creation_fields_error)) w2
  | SO_insert_failed msg w2 :
      filter (fun r => matches (Upsert.appId d) r = true) (table_of w conn)
      = [] ->
      stores w2 = stores w ->
      trace w2 = trace w ++ [EvConnect conn;
                             EvQuery SelectAppId [Upsert.appId d];
                             EvQuery Insert (Upsert.insertValues d)] ->
      store_outcome d conn w (Throw msg) w2
  | SO_created now w2 :
      filter (fun r => matches (Upsert.appId d) r = true) (table_of w conn)
      = [] ->
      stores w2
      = <[conn := table_of w conn ++ [created_row d now]]> (stores w) ->
      trace w2 = trace w ++ [EvConnect conn;
                             EvQuery SelectAppId [Upsert.appId d];
                             EvQuery Insert (Upsert.insertValues d)] ->
      store_outcome d conn w
        (Ok {| status := 200;
               body := BCreated (Upsert.env d) (Upsert.appId d) (Some now) |})
        w2.

(** Every way the upsert [try] block can end, from a frame without
    [client]. *)
Inductive try_outcome (cfg : ProcessEnv) (req : Request) (w : World)
  : Result Response -> Upsert.Frame -> Prop :=
  | TO_unreadable msg :
      payload req = None \/ payload req = Some JNull
      \/ payload req = Some JUndefined ->
      try_outcome cfg req w (Throw msg)
        {| Upsert.world := w; Upsert.client := None |}
  | TO_turned_away error :
      try_outcome cfg req w (Ok (bad_request error))
        {| Upsert.world := w; Upsert.client := None |}
  | TO_store b conn r w2 :
      payload req = Some b ->
      truthy (getDbUrl cfg (get_prop b "env")) = true ->
      conn = connection_string (getDbUrl cfg (get_prop b "env")) ->
      store_outcome (Upsert.fields b) conn w r w2 ->
      try_outcome cfg req w r
        {| Upsert.world := w2; Upsert.client := Some conn |}.

(** Every way the strict [try] block can end once the checks are passed. *)
Inductive strict_outcome (d : Strict.Descriptor) (conn : string) (w : World)
  : Result Response -> World -> Prop :=
  | ST_connect_failed msg w2 :
      stores w2 = stores w ->
      trace w2 = trace w ++ [EvConnect conn] ->
      strict_outcome d conn w (Throw msg) w2
  | ST_query_failed msg w2 :
      stores w2 = stores w ->
      trace w2 = trace w ++ [EvConnect conn;
                             EvQuery Strict.query (Strict.values d)] ->
      strict_outcome d conn w (Throw msg) w2
  | ST_not_found now w2 :
      filter (fun r => matches (Strict.appId d) r = true) (table_of w conn)
      = [] ->
      stores w2
      = <[conn := touch (Strict.appId d)
                    (with_app_code (Strict.appCode d) now)
                    (table_of w conn)]> (stores w) ->
      trace w2 = trace w ++ [EvConnect conn;
                             EvQuery Strict.query (Strict.values d);
                             EvEnd] ->
      strict_outcome d conn w (Ok Strict.app_not_found) w2
  | ST_updated now w2 :
      filter (fun r => matches (Strict.appId d) r = true) (table_of w conn)
      <> [] ->
      stores w2
      = <[conn := touch (Strict.appId d)
                    (with_app_code (Strict.appCode d) now)
                    (table_of w conn)]> (stores w) ->
      trace w2 = trace w ++ [EvConnect conn;
                             EvQuery Strict.query (Strict.values d);
                             EvEnd] ->
      strict_outcome d conn w
        (Ok {| status := 200;
               body := BStrictUpdated (Strict.env d) (Strict.appId d)
                         (Some now) |})
        w2.

(** ** Sample configuration, worlds and bodies *)

Definition sample_cfg : ProcessEnv :=
  {| PRESTAGING_DB_URL := None;
     STAGING_DB_URL := Some "postgres://staging/apps";
     PRODUCTION_DB_URL := Some "postgres://production/apps" |}.

Definition staging : string := "postgres://staging/apps".

Definition empty_world : World :=
  {| stores := empty; clock := 0; faults := []; trace := [] |}.

Definition svc_record : AppRecord :=
  {| app_name := JStr "svc"; app_id := JStr "a1"; app_version := JStr "1.0";
     app_code := JStr "code"; has_triggers := JBool true;
     has_actions := JBool true; git_sha := JNull; tags := JArr [];
     created_at := 3; updated_at := 3 |}.

Definition other_record : AppRecord :=
  {| app_name := JStr "other"; app_id := JStr "b2";
     app_version := JStr "0.9"; app_code := JStr "xyz";
     has_triggers := JBool true; has_actions := JBool true;
     git_sha := JStr "0f0f"; tags := JStr "[1]";
     created_at := 1; updated_at := 2 |}.

(** Staging holds [a1] and [b2]. *)
Definition seeded_world : World :=
  {| stores := {[ staging := [svc_record; other_record] ]};
     clock := 10; faults := []; trace := [] |}.

(** The same, with a database that accepts the connection and then fails
    the first statement. *)
Definition failing_world : World :=
  {| stores := {[ staging := [svc_record; other_record] ]};
     clock := 10; faults := [None; Some "terminating connection"];
     trace := [] |}.

(** The creation request of the scenario: every field given, [hasActions]
    false. *)
Definition scenario_body : JsVal :=
  JObj [ ("env", JStr "staging"); ("appId", JStr "a1");
         ("appName", JStr "svc"); ("appVersion", JStr "1.0");
         ("appCode", JStr "code"); ("hasTriggers", JBool true);
         ("hasActions", JBool false) ].

(** The scenario's request with [hasActions] true. *)
Definition scenario_body_true : JsVal :=
  JObj [ ("env", JStr "staging"); ("appId", JStr "a1");
         ("appName", JStr "svc"); ("appVersion", JStr "1.0");
         ("appCode", JStr "code"); ("hasTriggers", JBool true);
         ("hasActions", JBool true) ].

(** The scenario's request with [hasActions] true and a [tags] document. *)
Definition tagged_body : JsVal :=
  JObj [ ("env", JStr "staging"); ("appId", JStr "a1");
         ("appName", JStr "svc"); ("appVersion", JStr "1.0");
         ("appCode", JStr "code"); ("hasTriggers", JBool true);
         ("hasActions", JBool true); ("tags", JArr [JStr "beta"]) ].

(** A creation request with both flags true and no [tags]. *)
Definition creation_body : JsVal :=
  JObj [ ("env", JStr "staging"); ("appId", JStr "new");
         ("appName", JStr "svc"); ("appVersion", JStr "1.0");
         ("appCode", JStr "code"); ("hasTriggers", JBool true);
         ("hasActions", JBool true) ].

(** The scenario's follow-up request: a new version and nothing else. *)
Definition version_body : JsVal :=
  JObj [ ("env", JStr "staging"); ("appId", JStr "a1");
         ("appVersion", JStr "1.1") ].


(** The staging world with a database that refuses the connection, with an
    error that carries no message. *)
Definition refusing_world : World :=
  {| stores := {[ staging := [svc_record; other_record] ]};
     clock := 10; faults := [Some EmptyString]; trace := [] |}.

Definition bare_body : JsVal :=
  JObj [ ("appId", JStr "a1"); ("env", JStr "staging") ].

Definition git_sha_props : list (string * JsVal) :=
  [ ("appId", JStr "a1"); ("env", JStr "staging"); ("gitSha", JStr "9c1e") ].

Definition code_body : JsVal :=
  JObj [ ("env", JStr "staging"); ("appId", JStr "a1");
         ("appCode", JStr "v2") ].


Definition empty_env_body : JsVal :=
  JObj [ ("env", JStr EmptyString); ("appId", JStr "a1");
         ("appCode", JStr "v2") ].

Definition unknown_env_body : JsVal :=
  JObj [ ("env", JStr "dev"); ("appId", JStr "a1"); ("appCode", JStr "v2") ].

Definition prestaging_body : JsVal :=
  JObj [ ("env", JStr "prestaging"); ("appId", JStr "a1");
         ("appCode", JStr "v2") ].

(** A recognised [env] whose variable is unset, and no [appId]. *)
Definition prestaging_no_id_body : JsVal :=
  JObj [ ("env", JStr "prestaging"); ("appCode", JStr "v2") ].

Definition empty_id_body : JsVal :=
  JObj [ ("env", JStr "staging"); ("appId", JStr EmptyString);
         ("appCode", JStr "v2") ].

(** * Properties *)

(** Closes [forall k, k <> k1 -> ... -> assoc k ps = JUndefined] for a
    property list [ps] given in full. *)
Ltac no_other_key :=
  let k := fresh "k" in
  intros k; intros; cbn [assoc];
  repeat match goal with
         | |- context [String.eqb k ?s] =>
             destruct (String.eqb_spec k s); [contradiction|]
         end;
  reflexivity.

(** ** Equality of values *)

Lemma jsval_eqb_refl : forall v, jsval_eqb v v = true.
Proof.
  fix IH 1.
  intros [ | | b | n | s | xs | ps]; simpl; try reflexivity.
  - destruct b; reflexivity.
  - apply Z.eqb_refl.
  - apply String.eqb_refl.
  - induction xs as [|x xs IHxs]; [reflexivity|].
    rewrite (IH x), IHxs. reflexivity.
  - induction ps as [|[k x] ps IHps]; [reflexivity|].
    rewrite String.eqb_refl, (IH x), IHps. reflexivity.
Qed.

Lemma jsval_eqb_sound : forall a b, jsval_eqb a b = true -> a = b.
Proof.
  fix IH 1.
  intros [ | | x | x | x | xs | ps] [ | | y | y | y | ys | qs]; simpl;
    try discriminate; try reflexivity.
  - intros H. apply Bool.eqb_prop in H. congruence.
  - intros H. apply Z.eqb_eq in H. congruence.
  - intros H. apply String.eqb_eq in H. congruence.
  - intros H. f_equal. revert ys H.
    induction xs as [|x xs IHxs]; intros [|y ys] H; try discriminate;
      [reflexivity|].
    apply andb_prop in H as [Hx Hxs].
    f_equal; [apply IH, Hx | apply IHxs, Hxs].
  - intros H. f_equal. revert qs H.
    induction ps as [|[k x] ps IHps]; intros [|[k' y] qs] H;
      try discriminate; [reflexivity|].
    apply andb_prop in H as [H Hps]. apply andb_prop in H as [Hk Hx].
    apply String.eqb_eq in Hk.
    f_equal; [f_equal; [exact Hk | apply IH, Hx] | apply IHps, Hps].
Qed.

Lemma jsval_eqb_eq a b : jsval_eqb a b = true <-> a = b.
Proof.
  split; [apply jsval_eqb_sound | intros ->; apply jsval_eqb_refl].
Qed.

Lemma matches_spec key r : matches key r = true <-> app_id r = key.
Proof. apply jsval_eqb_eq. Qed.

Lemma matches_false key r : matches key r = false <-> app_id r <> key.
Proof.
  rewrite <- matches_spec. destruct (matches key r); split; congruence.
Qed.

(** ** What each client call adds to the trace *)

Lemma count_app p tr1 tr2 : count p (tr1 ++ tr2) = count p tr1 + count p tr2.
Proof. unfold count. rewrite List.filter_app, length_app. reflexivity. Qed.

Lemma io_trace w r w' : io w = (r, w') -> trace w' = trace w.
Proof.
  unfold io. destruct (faults w) as [|[msg|] rest]; intros [= <- <-];
    reflexivity.
Qed.

Lemma io_no_faults w : faults w = [] -> io w = (Ok tt, w).
Proof. unfold io. intros ->. reflexivity. Qed.

Lemma client_connect_trace conn w r w' :
  client_connect conn w = (r, w') -> trace w' = trace w ++ [EvConnect conn].
Proof.
  unfold client_connect, bind, record_call.
  destruct (io _) as [[[]|e] w1] eqn:E; intros [= <- <-];
    apply io_trace in E; exact E.
Qed.

Lemma client_query_trace conn q ps w r w' :
  client_query conn q ps w = (r, w') -> trace w' = trace w ++ [EvQuery q ps].
Proof.
  unfold client_query, bind, record_call.
  destruct (io _) as [[[]|e] w1] eqn:E; apply io_trace in E; simpl in E.
  - destruct (exec q ps (clock w1) (table_of w1 conn)) as [msg|[res t']];
      intros [= <- <-]; exact E.
  - intros [= <- <-]; exact E.
Qed.

Lemma client_end_run w :
  client_end w = (Ok tt, {| stores := stores w; clock := clock w;
                            faults := faults w;
                            trace := trace w ++ [EvEnd] |}).
Proof. reflexivity. Qed.

Lemma lift_run {A} (c : M World A) fr r fr' :
  Upsert.lift c fr = (r, fr') ->
  c (Upsert.world fr) = (r, Upsert.world fr')
  /\ Upsert.client fr' = Upsert.client fr.
Proof.
  unfold Upsert.lift. destruct (c (Upsert.world fr)) as [r0 w0].
  intros [= <- <-]. split; reflexivity.
Qed.

Lemma first_row_state {S} res (s : S) r s' :
  first_row res s = (r, s') -> s' = s.
Proof.
  unfold first_row. destruct (rows res); intros [= <- <-]; reflexivity.
Qed.

(** The two branches only send statements, and leave [client] alone. *)
Lemma update_branch_trace d conn fr r fr' :
  Upsert.update_branch d conn fr = (r, fr') ->
  Upsert.client fr' = Upsert.client fr
  /\ exists tr, trace (Upsert.world fr') = trace (Upsert.world fr) ++ tr
                /\ acquires tr = 0 /\ releases tr = 0.
Proof.
  unfold Upsert.update_branch.
  destruct (length (Upsert.update_sets d) =? 1).
  - intros [= <- <-]. split; [reflexivity|]. exists [].
    rewrite app_nil_r. repeat split.
  - unfold bind.
    destruct (Upsert.lift _ fr) as [[res|e] fr1] eqn:E;
      apply lift_run in E as [E Hc]; apply client_query_trace in E.
    + destruct (first_row res fr1) as [[row|e] fr2] eqn:F;
        apply first_row_state in F; subst fr2; intros [= <- <-];
        (split; [exact Hc|]); eexists; (split; [exact E|]);
        split; reflexivity.
    + intros [= <- <-]. split; [exact Hc|]. eexists. split; [exact E|].
      split; reflexivity.
Qed.

Lemma insert_branch_trace d conn fr r fr' :
  Upsert.insert_branch d conn fr = (r, fr') ->
  Upsert.client fr' = Upsert.client fr
  /\ exists tr, trace (Upsert.world fr') = trace (Upsert.world fr) ++ tr
                /\ acquires tr = 0 /\ releases tr = 0.
Proof.
  unfold Upsert.insert_branch.
  destruct (_ || _).
  - intros [= <- <-]. split; [reflexivity|]. exists [].
    rewrite app_nil_r. repeat split.
  - unfold bind.
    destruct (Upsert.lift _ fr) as [[res|e] fr1] eqn:E;
      apply lift_run in E as [E Hc]; apply client_query_trace in E.
    + destruct (first_row res fr1) as [[row|e] fr2] eqn:F;
        apply first_row_state in F; subst fr2; intros [= <- <-];
        (split; [exact Hc|]); eexists; (split; [exact E|]);
        split; reflexivity.
    + intros [= <- <-]. split; [exact Hc|]. eexists. split; [exact E|].
      split; reflexivity.
Qed.

(** The [try] block either stops before a client exists and calls nothing,
    or creates one client, connects it once and never ends it. *)
Lemma try_block_trace cfg req w r fr :
  Upsert.try_block cfg req {| Upsert.world := w; Upsert.client := None |}
  = (r, fr) ->
  (Upsert.client fr = None /\ trace (Upsert.world fr) = trace w)
  \/ (exists conn tr,
        Upsert.client fr = Some conn
        /\ trace (Upsert.world fr) = trace w ++ EvConnect conn :: tr
        /\ acquires tr = 0 /\ releases tr = 0).
Proof.
  unfold Upsert.try_block, bind, readBody.
  destruct (payload req) as [b|]; [|intros [= <- <-]; left; split; reflexivity].
  simpl.
  destruct (Upsert.destructure b _) as [[d|e] fr0] eqn:D.
  2:{ unfold Upsert.destructure in D.
      destruct b; inversion D; subst; intros [= <- <-]; left;
        split; reflexivity. }
  assert (fr0 = {| Upsert.world := w; Upsert.client := None |}) as ->.
  { unfold Upsert.destructure in D. destruct b; inversion D; reflexivity. }
  destruct (_ || _); [intros [= <- <-]; left; split; reflexivity|].
  destruct (negb _); [intros [= <- <-]; left; split; reflexivity|].
  set (conn := connection_string _).
  unfold Upsert.assign_client.
  destruct (Upsert.lift (client_connect conn) _) as [[[]|e] fr1] eqn:C;
    apply lift_run in C as [C Hc1]; apply client_connect_trace in C;
    simpl in C, Hc1.
  2:{ intros [= <- <-]. right. exists conn, []. repeat split; assumption. }
  destruct (Upsert.lift (client_query _ _ _) fr1) as [[res|e] fr2] eqn:Q;
    apply lift_run in Q as [Q Hc2]; apply client_query_trace in Q.
  2:{ intros [= <- <-]. right. exists conn, [EvQuery SelectAppId [Upsert.appId d]].
      rewrite Hc2, Hc1, Q, C, <- app_assoc. repeat split. }
  intros H.
  assert (Upsert.client fr = Upsert.client fr2
          /\ exists tr, trace (Upsert.world fr) = trace (Upsert.world fr2) ++ tr
                        /\ acquires tr = 0 /\ releases tr = 0)
    as [Hc3 (tr & Htr & Ha & Hr)].
  { destruct (0 <? rowCount res);
      [eapply update_branch_trace | eapply insert_branch_trace]; exact H. }
  right. exists conn, (EvQuery SelectAppId [Upsert.appId d] :: tr).
  rewrite Hc3, Hc2, Hc1, Htr, Q, C, <- !app_assoc.
  split; [reflexivity|]. split; [reflexivity|].
  unfold acquires, releases in *. change (EvQuery ?q ?p :: tr) with ([EvQuery q p] ++ tr).
  rewrite !count_app, Ha, Hr. split; reflexivity.
Qed.

(** For the upsert handler, on every request and in every world (any fault
    script): whatever it adds to the trace holds as many releases as
    acquisitions, and at most one of each. *)
Lemma Upsert_releases_what_it_acquires cfg req w r w' :
  Upsert.handler cfg req w = (r, w') ->
  exists tr, trace w' = trace w ++ tr
             /\ releases tr = acquires tr /\ acquires tr <= 1.
Proof.
  unfold Upsert.handler.
  destruct (_ || _).
  { intros [= <- <-]. exists []. rewrite app_nil_r. repeat split; auto. }
  unfold try_finally, try_catch, Upsert.catch_block, Upsert.finally_block.
  destruct (Upsert.try_block cfg req _) as [r0 fr] eqn:T.
  apply try_block_trace in T as [[Hc Ht] | (conn & tr & Hc & Ht & Ha & Hr)].
  - destruct r0 as [resp|e]; simpl; rewrite Hc; intros [= <- <-];
      exists []; rewrite app_nil_r; repeat split; auto.
  - destruct r0 as [resp|e]; simpl; rewrite Hc; simpl; intros [= <- <-];
      exists (EvConnect conn :: tr ++ [EvEnd]); simpl; rewrite Ht;
      (split; [rewrite <- app_assoc; reflexivity|]);
      unfold acquires, releases in *;
      change (EvConnect conn :: tr ++ [EvEnd])
        with ([EvConnect conn] ++ tr ++ [EvEnd]);
      rewrite !count_app, Ha, Hr; split; auto.
Qed.

(** ** The existence check *)

Lemma hits_exists key (t : list AppRecord) r :
  r ∈ t -> app_id r = key ->
  (0 <? length (filter (fun r => matches key r = true) t)) = true.
Proof.
  intros Hin Hid. apply Nat.ltb_lt.
  assert (r ∈ filter (fun r => matches key r = true) t) as H.
  { apply list_elem_of_filter. split; [apply matches_spec, Hid | exact Hin]. }
  destruct (filter _ t); [inversion H | simpl; lia].
Qed.

Lemma hits_absent key (t : list AppRecord) :
  (forall r, r ∈ t -> app_id r <> key) ->
  filter (fun r => matches key r = true) t = [].
Proof.
  intros H. induction t as [|r t IH]; [reflexivity|].
  rewrite filter_cons_False.
  - apply IH. intros r' Hr'. apply H. right. exact Hr'.
  - intros Hm. apply matches_spec in Hm. revert Hm. apply H. left.
Qed.

(** ** The upsert handler up to the branch *)

(** With a body that can be destructured, truthy [env] and [appId], a
    configured database and no fault, the [try] block connects, runs the
    existence check and enters one of the two branches. *)
Lemma Upsert_reaches_store cfg b w :
  b <> JNull -> b <> JUndefined ->
  truthy (Upsert.env (Upsert.fields b)) = true ->
  truthy (Upsert.appId (Upsert.fields b)) = true ->
  truthy (getDbUrl cfg (Upsert.env (Upsert.fields b))) = true ->
  faults w = [] ->
  let d := Upsert.fields b in
  let conn := connection_string (getDbUrl cfg (Upsert.env d)) in
  let hit := filter (fun r => matches (Upsert.appId d) r = true)
               (table_of w conn) in
  Upsert.try_block cfg (post b)
    {| Upsert.world := w; Upsert.client := None |}
  = (if 0 <? length hit then Upsert.update_branch d conn
     else Upsert.insert_branch d conn)
      {| Upsert.world :=
           {| stores := stores w; clock := S (clock w); faults := [];
              trace := trace w ++ [EvConnect conn;
                                   EvQuery SelectAppId [Upsert.appId d]] |};
         Upsert.client := Some conn |}.
Proof.
  intros Hnull Hundef Henv Hid Hurl Hf. cbv zeta.
  destruct w as [st ck fl tr]. simpl in Hf. subst fl.
  set (d := Upsert.fields b) in *.
  set (conn := connection_string (getDbUrl cfg (Upsert.env d))).
  unfold Upsert.try_block, bind, readBody.
  change (payload (post b)) with (Some b). unfold ret at 1. cbv beta iota.
  assert (Upsert.destructure (S := Upsert.Frame) b = ret d) as ->.
  { unfold Upsert.destructure. destruct b; first [reflexivity | congruence]. }
  unfold ret at 1. cbv beta iota.
  rewrite Henv, Hid. simpl negb. simpl orb. cbv iota.
  rewrite Hurl. simpl negb. cbv iota. fold conn.
  unfold Upsert.assign_client, Upsert.lift at 1, client_connect, bind,
    record_call, io. simpl.
  rewrite <- app_assoc. reflexivity.
Qed.

Lemma Upsert_handler_post cfg b w :
  Upsert.handler cfg (post b) w
  = match try_finally (try_catch (Upsert.try_block cfg (post b))
                         Upsert.catch_block)
            Upsert.finally_block
            {| Upsert.world := w; Upsert.client := None |} with
    | (r, fr) => (r, Upsert.world fr)
    end.
Proof. reflexivity. Qed.

(** ** Rows touched by an [UPDATE] *)

(** An update that keeps the key column hits the rows it was aimed at. *)
Lemma update_hits key (F : AppRecord -> AppRecord) (t : list AppRecord) :
  (forall r, app_id (F r) = app_id r) ->
  filter (fun r => matches key r = true)
    (map (fun r => if matches key r then F r else r) t)
  = map F (filter (fun r => matches key r = true) t).
Proof.
  intros HF. induction t as [|r t IH]; [reflexivity|].
  simpl map. destruct (matches key r) eqn:E.
  - rewrite !filter_cons_True.
    + simpl. rewrite IH. reflexivity.
    + exact E.
    + unfold matches in *. rewrite HF. exact E.
  - rewrite !filter_cons_False; [exact IH| |]; rewrite E; discriminate.
Qed.

Lemma hits_cons key (t : list AppRecord) r :
  r ∈ t -> app_id r = key ->
  exists r0 rest,
    filter (fun r => matches key r = true) t = r0 :: rest
    /\ app_id r0 = key.
Proof.
  intros Hin Hid.
  assert (r ∈ filter (fun r => matches key r = true) t) as H.
  { apply list_elem_of_filter. split; [apply matches_spec, Hid | exact Hin]. }
  destruct (filter _ t) as [|r0 rest] eqn:E; [inversion H|].
  exists r0, rest. split; [reflexivity|].
  assert (r0 ∈ filter (fun r => matches key r = true) t) as H0
    by (rewrite E; left).
  apply list_elem_of_filter in H0 as [H0 _]. apply matches_spec, H0.
Qed.

(** ** Running a statement when the database raises no fault *)

Lemma client_query_update_run conn sets k ps w fs key :
  faults w = [] ->
  mapM (resolve_set (clock w) ps) sets = Some fs ->
  param ps k = Some key ->
  client_query conn (Update sets k) ps w
  = (Ok {| rowCount :=
             length (filter (fun r => matches key r = true)
                       (touch key (apply_all fs) (table_of w conn)));
           rows :=
             map returned_row
               (filter (fun r => matches key r = true)
                  (touch key (apply_all fs) (table_of w conn))) |},
     {| stores := <[conn := touch key (apply_all fs) (table_of w conn)]>
                    (stores w);
        clock := S (clock w);
        faults := [];
        trace := trace w ++ [EvQuery (Update sets k) ps] |}).
Proof.
  intros Hf Hfs Hkey. destruct w as [st ck fl tr]. simpl in *. subst fl.
  unfold client_query, bind, record_call, io. simpl.
  unfold table_of. simpl. rewrite Hfs, Hkey. reflexivity.
Qed.

(** ** Partial update *)

(** C6. Upsert variant, no store fault: when the body holds no property
    other than [env], [appId] and [gitSha] (and does hold [gitSha]), and the
    target table has a row for that [appId], the handler answers
    [200 updated] with that [appId] and the statement's clock reading, sends
    [UPDATE app SET git_sha = $1, updated_at = CURRENT_TIMESTAMP WHERE
    app_id = $2] with [[gitSha, appId]], and the table afterwards is the old
    one where each row with that key has the new [git_sha] and [updated_at]
    and keeps all its other columns; other rows, and other stores, are
    untouched. *)
Theorem C6_git_sha_only_update cfg ps w r :
  (forall k, k <> "env" -> k <> "appId" -> k <> "gitSha" ->
             assoc k ps = JUndefined) ->
  assoc "gitSha" ps <> JUndefined ->
  truthy (assoc "env" ps) = true ->
  truthy (assoc "appId" ps) = true ->
  truthy (getDbUrl cfg (assoc "env" ps)) = true ->
  faults w = [] ->
  r ∈ table_of w (connection_string (getDbUrl cfg (assoc "env" ps))) ->
  app_id r = assoc "appId" ps ->
  Upsert.handler cfg (post (JObj ps)) w
  = (Ok {| status := 200;
           body := BUpdated (assoc "env" ps) (assoc "appId" ps)
                     (Some (S (clock w))) |},
     {| stores :=
          <[connection_string (getDbUrl cfg (assoc "env" ps)) :=
              touch (assoc "appId" ps)
                (with_git_sha (assoc "gitSha" ps) (S (clock w)))
                (table_of w
                   (connection_string (getDbUrl cfg (assoc "env" ps))))]>
            (stores w);
        clock := S (S (clock w));
        faults := [];
        trace :=
          trace w ++
          [ EvConnect (connection_string (getDbUrl cfg (assoc "env" ps)));
            EvQuery SelectAppId [assoc "appId" ps];
            EvQuery
              (Update [SetParam c_git_sha 1 false;
                       SetUpdatedAt CURRENT_TIMESTAMP] 2)
              [assoc "gitSha" ps; assoc "appId" ps];
            EvEnd ] |}).
Proof.
  intros Honly Hsha Henv Hid Hurl Hf Hin Hkey.
  set (conn := connection_string _) in *.
  rewrite Upsert_handler_post. unfold try_finally, try_catch.
  rewrite Upsert_reaches_store by (assumption || discriminate).
  change (Upsert.appId (Upsert.fields (JObj ps))) with (assoc "appId" ps).
  change (Upsert.env (Upsert.fields (JObj ps))) with (assoc "env" ps).
  fold conn.
  rewrite (hits_exists _ _ r Hin Hkey).
  assert (Upsert.fields (JObj ps)
          = {| Upsert.env := assoc "env" ps;
               Upsert.appId := assoc "appId" ps;
               Upsert.appName := JUndefined;
               Upsert.appVersion := JUndefined;
               Upsert.appCode := JUndefined;
               Upsert.hasTriggers := JUndefined;
               Upsert.hasActions := JUndefined;
               Upsert.gitSha := assoc "gitSha" ps;
               Upsert.tags := JUndefined |}) as ->.
  { unfold Upsert.fields, get_prop.
    rewrite !(Honly "appName"), !(Honly "appVersion"), !(Honly "appCode"),
      !(Honly "hasTriggers"), !(Honly "hasActions"), !(Honly "tags")
      by discriminate.
    reflexivity. }
  destruct (hits_cons _ _ r Hin Hkey) as (r0 & rest & Hhit & Hr0).
  assert (defined (assoc "gitSha" ps) = true) as Hdef
    by (destruct (assoc "gitSha" ps); [congruence | reflexivity ..]).
  set (d := Upsert.Build_Descriptor _ _ _ _ _ _ _ _ _).
  assert (Upsert.update_sets d
          = [SetParam c_git_sha 1 false; SetUpdatedAt CURRENT_TIMESTAMP])
    as Hsets.
  { unfold Upsert.update_sets, Upsert.build_update_set,
      Upsert.push_if_defined. simpl. rewrite Hdef. reflexivity. }
  assert (Upsert.updateQuery d
          = Update [SetParam c_git_sha 1 false;
                    SetUpdatedAt CURRENT_TIMESTAMP] 2) as Hq.
  { unfold Upsert.updateQuery. rewrite Hsets.
    unfold Upsert.build_update_set, Upsert.push_if_defined. simpl.
    rewrite Hdef. reflexivity. }
  assert (Upsert.update_values d = [assoc "gitSha" ps; assoc "appId" ps])
    as Hvals.
  { unfold Upsert.update_values, Upsert.build_update_set,
      Upsert.push_if_defined. simpl. rewrite Hdef. reflexivity. }
  unfold Upsert.update_branch. rewrite Hsets, Hq, Hvals.
  change (length _ =? 1) with false. cbv iota.
  unfold bind, Upsert.lift. simpl Upsert.world. simpl Upsert.client.
  erewrite client_query_update_run; [|reflexivity..].
  simpl clock. simpl trace. simpl stores.
  change (table_of _ conn) with (table_of w conn).
  change (touch (assoc "appId" ps) (apply_all _))
    with (touch (assoc "appId" ps)
            (with_git_sha (assoc "gitSha" ps) (S (clock w)))).
  unfold touch at 1 2. rewrite update_hits by reflexivity.
  rewrite Hhit. simpl. rewrite Hr0.
  unfold Upsert.finally_block, Upsert.lift. simpl.
  rewrite <- !app_assoc. reflexivity.
Qed.

Lemma C6_witness :
  fst (Upsert.handler sample_cfg (post (JObj git_sha_props)) seeded_world)
  = Ok {| status := 200;
          body := BUpdated (JStr "staging") (JStr "a1") (Some 11) |}
  /\ table_of
       (snd (Upsert.handler sample_cfg (post (JObj git_sha_props))
               seeded_world)) staging
     = [with_git_sha (JStr "9c1e") 11 svc_record; other_record].
Proof.
  rewrite (C6_git_sha_only_update sample_cfg git_sha_props seeded_world
             svc_record).
  - split; vm_compute; reflexivity.
  - unfold git_sha_props. no_other_key.
  - discriminate.
  - reflexivity.
  - reflexivity.
  - reflexivity.
  - reflexivity.
  - vm_compute. left.
  - reflexivity.
Defined.

(** ** Creation *)

Lemma existsb_matches_absent key (t : list AppRecord) :
  (forall r, r ∈ t -> app_id r <> key) -> existsb (matches key) t = false.
Proof.
  intros H. induction t as [|r t IH]; [reflexivity|]. simpl.
  rewrite (proj2 (matches_false key r)) by (apply H; left).
  apply IH. intros r' Hr'. apply H. right. exact Hr'.
Qed.

Lemma client_query_insert_run conn w p1 p2 p3 p4 p5 p6 p7 p8 :
  faults w = [] ->
  existsb (matches p2) (table_of w conn) = false ->
  client_query conn Insert [p1; p2; p3; p4; p5; p6; p7; p8] w
  = (Ok {| rowCount := 1;
           rows := [{| row_app_id := p2; row_created_at := Some (clock w);
                       row_updated_at := None |}] |},
     {| stores :=
          <[conn := table_of w conn ++
               [{| app_name := p1; app_id := p2; app_version := p3;
                   app_code := p4; has_triggers := p5; has_actions := p6;
                   git_sha := p7; tags := p8;
                   created_at := clock w; updated_at := clock w |}]]>
            (stores w);
        clock := S (clock w);
        faults := [];
        trace := trace w ++ [EvQuery Insert [p1; p2; p3; p4; p5; p6; p7; p8]]
     |}).
Proof.
  intros Hf Hfree. destruct w as [st ck fl tr]. simpl in *. subst fl.
  unfold client_query, bind, record_call, io. simpl.
  unfold table_of in *. simpl in *. rewrite Hfree. reflexivity.
Qed.

(** ** Requests that are turned away before any client exists *)

Lemma Strict_handler_post cfg b w :
  Strict.handler cfg (post b) w
  = try_catch (Strict.try_block cfg (post b)) Strict.catch_block w.
Proof. reflexivity. Qed.

Lemma Upsert_destructure_ok {S} b :
  b <> JNull -> b <> JUndefined ->
  Upsert.destructure (S := S) b = ret (Upsert.fields b).
Proof. intros. unfold Upsert.destructure. destruct b; congruence. Qed.

Lemma Strict_destructure_ok {S} b :
  b <> JNull -> b <> JUndefined ->
  Strict.destructure (S := S) b = ret (Strict.fields b).
Proof. intros. unfold Strict.destructure. destruct b; congruence. Qed.

Lemma Upsert_missing_fields cfg b w :
  b <> JNull -> b <> JUndefined ->
  truthy (get_prop b "env") = false \/ truthy (get_prop b "appId") = false ->
  Upsert.handler cfg (post b) w
  = (Ok (bad_request Upsert.missing_fields_error), w).
Proof.
  intros Hnull Hundef H.
  rewrite Upsert_handler_post.
  unfold try_finally, try_catch, Upsert.try_block, bind, readBody.
  change (payload (post b)) with (Some b). unfold ret at 1. cbv beta iota.
  rewrite Upsert_destructure_ok by assumption. unfold ret at 1.
  cbv beta iota.
  change (Upsert.env (Upsert.fields b)) with (get_prop b "env").
  change (Upsert.appId (Upsert.fields b)) with (get_prop b "appId").
  assert (negb (truthy (get_prop b "env"))
          || negb (truthy (get_prop b "appId")) = true) as ->.
  { destruct H as [-> | ->]; [reflexivity | apply orb_true_r]. }
  reflexivity.
Qed.

Lemma Upsert_invalid_environment cfg b w :
  b <> JNull -> b <> JUndefined ->
  truthy (get_prop b "env") = true ->
  truthy (get_prop b "appId") = true ->
  truthy (getDbUrl cfg (get_prop b "env")) = false ->
  Upsert.handler cfg (post b) w
  = (Ok (bad_request "Invalid environment"), w).
Proof.
  intros Hnull Hundef Henv Hid Hurl.
  rewrite Upsert_handler_post.
  unfold try_finally, try_catch, Upsert.try_block, bind, readBody.
  change (payload (post b)) with (Some b). unfold ret at 1. cbv beta iota.
  rewrite Upsert_destructure_ok by assumption. unfold ret at 1.
  cbv beta iota.
  change (Upsert.env (Upsert.fields b)) with (get_prop b "env").
  change (Upsert.appId (Upsert.fields b)) with (get_prop b "appId").
  rewrite Henv, Hid, Hurl. reflexivity.
Qed.

Lemma Strict_missing_fields cfg b w :
  b <> JNull -> b <> JUndefined ->
  truthy (get_prop b "env") = false \/ truthy (get_prop b "appId") = false
  \/ truthy (get_prop b "appCode") = false ->
  Strict.handler cfg (post b) w
  = (Ok (bad_request Strict.missing_fields_error), w).
Proof.
  intros Hnull Hundef H.
  rewrite Strict_handler_post.
  unfold try_catch, Strict.try_block, bind, readBody.
  change (payload (post b)) with (Some b). unfold ret at 1. cbv beta iota.
  rewrite Strict_destructure_ok by assumption. unfold ret at 1.
  cbv beta iota.
  change (Strict.env (Strict.fields b)) with (get_prop b "env").
  change (Strict.appId (Strict.fields b)) with (get_prop b "appId").
  change (Strict.appCode (Strict.fields b)) with (get_prop b "appCode").
  assert (negb (truthy (get_prop b "env"))
          || negb (truthy (get_prop b "appId"))
          || negb (truthy (get_prop b "appCode")) = true) as ->.
  { destruct H as [-> | [-> | ->]];
      [reflexivity | rewrite orb_true_r; reflexivity | apply orb_true_r]. }
  reflexivity.
Qed.

Lemma Strict_invalid_environment cfg b w :
  b <> JNull -> b <> JUndefined ->
  truthy (get_prop b "env") = true ->
  truthy (get_prop b "appId") = true ->
  truthy (get_prop b "appCode") = true ->
  truthy (getDbUrl cfg (get_prop b "env")) = false ->
  Strict.handler cfg (post b) w
  = (Ok (bad_request "Invalid environment"), w).
Proof.
  intros Hnull Hundef Henv Hid Hcode Hurl.
  rewrite Strict_handler_post.
  unfold try_catch, Strict.try_block, bind, readBody.
  change (payload (post b)) with (Some b). unfold ret at 1. cbv beta iota.
  rewrite Strict_destructure_ok by assumption. unfold ret at 1.
  cbv beta iota.
  change (Strict.env (Strict.fields b)) with (get_prop b "env").
  change (Strict.appId (Strict.fields b)) with (get_prop b "appId").
  change (Strict.appCode (Strict.fields b)) with (get_prop b "appCode").
  rewrite Henv, Hid, Hcode, Hurl. reflexivity.
Qed.

(** The falsy values are exactly these five. *)
Lemma truthy_false_iff v :
  truthy v = false
  <-> v = JUndefined \/ v = JNull \/ v = JBool false \/ v = JNum 0
      \/ v = JStr EmptyString.
Proof.
  split.
  - destruct v as [ | | [] | n | s | | ]; simpl; try discriminate; auto.
    + destruct (Z.eqb_spec n 0); [subst; auto | discriminate].
    + destruct (String.eqb_spec s EmptyString); [subst; auto 6 | discriminate].
  - intros [-> | [-> | [-> | [-> | ->]]]]; reflexivity.
Qed.

(** C10. In both variants a body whose [env] or [appId] (or, in the strict
    variant, [appCode]) is falsy -- absent, [null], [false], [0] or the empty
    string -- is answered [400] with the variant's missing-fields message,
    and the world is left as it was: no client call is made. *)
Theorem C10_falsy_required_field cfg b w :
  b <> JNull -> b <> JUndefined ->
  (truthy (get_prop b "env") = false \/ truthy (get_prop b "appId") = false ->
   Upsert.handler cfg (post b) w
   = ( Ok {| status := 400;
             body := BFailure "Missing required fields: env, appId" |}, w ))
  /\ (truthy (get_prop b "env") = false
      \/ truthy (get_prop b "appId") = false
      \/ truthy (get_prop b "appCode") = false ->
      Strict.handler cfg (post b) w
      = ( Ok {| status := 400;
                body :=
                  BFailure "Missing required fields: env, appId, appCode" |},
          w )).
Proof.
  intros Hnull Hundef. split; intros H.
  - apply Upsert_missing_fields; assumption.
  - apply Strict_missing_fields; assumption.
Qed.

Lemma C10_witness :
  Upsert.handler sample_cfg (post empty_id_body) seeded_world
  = (Ok (bad_request Upsert.missing_fields_error), seeded_world)
  /\ Strict.handler sample_cfg (post empty_id_body) seeded_world
     = (Ok (bad_request Strict.missing_fields_error), seeded_world).
Proof.
  destruct (C10_falsy_required_field sample_cfg empty_id_body seeded_world)
    as [U S]; [discriminate | discriminate |].
  split; [apply U | apply S]; right; [|left]; reflexivity.
Defined.

(** ** Environment routing *)

Lemma strict_eq_str_false v lit : v <> JStr lit -> strict_eq_str v lit = false.
Proof.
  destruct v; simpl; try reflexivity. intros H.
  destruct (String.eqb_spec s lit); [subst; contradiction | reflexivity].
Qed.

Lemma getDbUrl_unknown cfg env :
  env <> JStr "prestaging" -> env <> JStr "staging" ->
  env <> JStr "production" ->
  getDbUrl cfg env = JNull.
Proof.
  intros H1 H2 H3. unfold getDbUrl.
  rewrite !strict_eq_str_false by assumption. reflexivity.
Qed.

Lemma getDbUrl_unset cfg env :
  (env = JStr "prestaging" /\ PRESTAGING_DB_URL cfg = None)
  \/ (env = JStr "staging" /\ STAGING_DB_URL cfg = None)
  \/ (env = JStr "production" /\ PRODUCTION_DB_URL cfg = None) ->
  getDbUrl cfg env = JUndefined /\ truthy env = true.
Proof.
  unfold getDbUrl.
  intros [[-> ->] | [[-> ->] | [-> ->]]]; split; reflexivity.
Qed.

(** C5, as the code has it. For every body that can be destructured and
    whose [env] is anything other than the strings [prestaging], [staging]
    and [production], [getDbUrl] yields [null], and both handlers leave the
    world exactly as it was (no client call), whatever the other fields.  The
    answer is [400 Invalid environment] when [env], [appId] (and, in the
    strict variant, [appCode]) are all truthy, and [400] with the
    missing-fields message when any of them is falsy -- in particular when
    [env] is empty or missing. *)
Theorem C5_unknown_environment cfg b w :
  b <> JNull -> b <> JUndefined ->
  get_prop b "env" <> JStr "prestaging" ->
  get_prop b "env" <> JStr "staging" ->
  get_prop b "env" <> JStr "production" ->
  getDbUrl cfg (get_prop b "env") = JNull
  /\ snd (Upsert.handler cfg (post b) w) = w
  /\ snd (Strict.handler cfg (post b) w) = w
  /\ (truthy (get_prop b "env") = true ->
      truthy (get_prop b "appId") = true ->
      Upsert.handler cfg (post b) w
      = (Ok {| status := 400; body := BFailure "Invalid environment" |}, w))
  /\ (truthy (get_prop b "env") = false
      \/ truthy (get_prop b "appId") = false ->
      Upsert.handler cfg (post b) w
      = (Ok {| status := 400;
               body := BFailure "Missing required fields: env, appId" |}, w))
  /\ (truthy (get_prop b "env") = true ->
      truthy (get_prop b "appId") = true ->
      truthy (get_prop b "appCode") = true ->
      Strict.handler cfg (post b) w
      = (Ok {| status := 400; body := BFailure "Invalid environment" |}, w))
  /\ (truthy (get_prop b "env") = false
      \/ truthy (get_prop b "appId") = false
      \/ truthy (get_prop b "appCode") = false ->
      Strict.handler cfg (post b) w
      = (Ok {| status := 400;
               body :=
                 BFailure "Missing required fields: env, appId, appCode" |},
         w)).
Proof.
  intros Hnull Hundef H1 H2 H3.
  pose proof (getDbUrl_unknown cfg _ H1 H2 H3) as Hurl.
  assert (truthy (getDbUrl cfg (get_prop b "env")) = false) as Hfalsy
    by (rewrite Hurl; reflexivity).
  split; [exact Hurl|]. split; [|split].
  - destruct (truthy (get_prop b "env")) eqn:Henv;
      [|rewrite Upsert_missing_fields by auto; reflexivity].
    destruct (truthy (get_prop b "appId")) eqn:Hid;
      [|rewrite Upsert_missing_fields by auto; reflexivity].
    rewrite Upsert_invalid_environment by assumption. reflexivity.
  - destruct (truthy (get_prop b "env")) eqn:Henv;
      [|rewrite Strict_missing_fields by auto; reflexivity].
    destruct (truthy (get_prop b "appId")) eqn:Hid;
      [|rewrite Strict_missing_fields by auto; reflexivity].
    destruct (truthy (get_prop b "appCode")) eqn:Hcode;
      [|rewrite Strict_missing_fields by auto; reflexivity].
    rewrite Strict_invalid_environment by assumption. reflexivity.
  - repeat split.
    + intros. apply Upsert_invalid_environment; assumption.
    + intros. apply Upsert_missing_fields; assumption.
    + intros. apply Strict_invalid_environment; assumption.
    + intros. apply Strict_missing_fields; assumption.
Qed.

Lemma C5_witness :
  Upsert.handler sample_cfg (post unknown_env_body) seeded_world
  = (Ok (bad_request "Invalid environment"), seeded_world)
  /\ Strict.handler sample_cfg (post unknown_env_body) seeded_world
     = (Ok (bad_request "Invalid environment"), seeded_world).
Proof.
  destruct (C5_unknown_environment sample_cfg unknown_env_body seeded_world)
    as (_ & _ & _ & U & _ & S & _); try discriminate.
  split; [apply U | apply S]; reflexivity.
Defined.

(** C5 as stated fails at an empty [env]: the answer is the missing-fields
    failure, not [Invalid environment]. *)
Lemma C5_counterexample :
  get_prop empty_env_body "env" = JStr EmptyString
  /\ Upsert.handler sample_cfg (post empty_env_body) seeded_world
     = (Ok (bad_request "Missing required fields: env, appId"), seeded_world)
  /\ fst (Upsert.handler sample_cfg (post empty_env_body) seeded_world)
     <> Ok (bad_request "Invalid environment").
Proof.
  split; [reflexivity|]. split; [reflexivity|].
  vm_compute. discriminate.
Qed.

(** C9, as the code has it. When [env] is one of the three recognised names
    but its [*_DB_URL] variable is unset, [getDbUrl] returns [undefined] and
    both handlers leave the world exactly as it was (no client call).  With a
    truthy [appId] (and, in the strict variant, [appCode]) the answer is
    [400 Invalid environment] -- the very answer an unknown [env] such as
    [dev] gets; with a falsy [appId] (or [appCode]) the required-field guard
    comes first and the answer is [400] with the missing-fields message. *)
Theorem C9_unset_database_url cfg b w :
  b <> JNull -> b <> JUndefined ->
  (get_prop b "env" = JStr "prestaging" /\ PRESTAGING_DB_URL cfg = None)
  \/ (get_prop b "env" = JStr "staging" /\ STAGING_DB_URL cfg = None)
  \/ (get_prop b "env" = JStr "production" /\ PRODUCTION_DB_URL cfg = None) ->
  getDbUrl cfg (get_prop b "env") = JUndefined
  /\ snd (Upsert.handler cfg (post b) w) = w
  /\ snd (Strict.handler cfg (post b) w) = w
  /\ (truthy (get_prop b "appId") = true ->
      Upsert.handler cfg (post b) w
      = (Ok {| status := 400; body := BFailure "Invalid environment" |}, w)
      /\ Upsert.handler cfg (post b) w
         = Upsert.handler cfg (post unknown_env_body) w)
  /\ (truthy (get_prop b "appId") = false ->
      Upsert.handler cfg (post b) w
      = (Ok {| status := 400;
               body := BFailure "Missing required fields: env, appId" |}, w))
  /\ (truthy (get_prop b "appId") = true ->
      truthy (get_prop b "appCode") = true ->
      Strict.handler cfg (post b) w
      = (Ok {| status := 400; body := BFailure "Invalid environment" |}, w)
      /\ Strict.handler cfg (post b) w
         = Strict.handler cfg (post unknown_env_body) w)
  /\ (truthy (get_prop b "appId") = false
      \/ truthy (get_prop b "appCode") = false ->
      Strict.handler cfg (post b) w
      = (Ok {| status := 400;
               body :=
                 BFailure "Missing required fields: env, appId, appCode" |},
         w)).
Proof.
  intros Hnull Hundef Hcase.
  destruct (getDbUrl_unset cfg _ Hcase) as [Hurl Henv].
  assert (truthy (getDbUrl cfg (get_prop b "env")) = false) as Hfalsy
    by (rewrite Hurl; reflexivity).
  assert (truthy (get_prop b "appId") = true ->
          Upsert.handler cfg (post b) w
          = (Ok (bad_request "Invalid environment"), w)) as HU
    by (intros; apply Upsert_invalid_environment; assumption).
  assert (truthy (get_prop b "appId") = true ->
          truthy (get_prop b "appCode") = true ->
          Strict.handler cfg (post b) w
          = (Ok (bad_request "Invalid environment"), w)) as HS
    by (intros; apply Strict_invalid_environment; assumption).
  split; [exact Hurl|]. split; [|split].
  - destruct (truthy (get_prop b "appId")) eqn:Hid;
      [rewrite HU by reflexivity
      |rewrite Upsert_missing_fields by auto]; reflexivity.
  - destruct (truthy (get_prop b "appId")) eqn:Hid;
      [|rewrite Strict_missing_fields by auto; reflexivity].
    destruct (truthy (get_prop b "appCode")) eqn:Hcode;
      [rewrite HS by reflexivity
      |rewrite Strict_missing_fields by auto]; reflexivity.
  - split; [|split; [|split]].
    + intros Hid. split; [apply HU, Hid|]. rewrite (HU Hid). symmetry.
      apply Upsert_invalid_environment; try discriminate; reflexivity.
    + intros Hid. apply Upsert_missing_fields; auto.
    + intros Hid Hcode. split; [apply HS; assumption|].
      rewrite (HS Hid Hcode). symmetry.
      apply Strict_invalid_environment; try discriminate; reflexivity.
    + intros H. apply Strict_missing_fields; tauto.
Qed.

Lemma C9_witness :
  getDbUrl sample_cfg (JStr "prestaging") = JUndefined
  /\ Upsert.handler sample_cfg (post prestaging_body) seeded_world
     = (Ok (bad_request "Invalid environment"), seeded_world).
Proof.
  destruct (C9_unset_database_url sample_cfg prestaging_body seeded_world)
    as (G & _ & _ & U & _); try discriminate.
  - left. split; reflexivity.
  - split; [exact G | apply U; reflexivity].
Defined.

(** C9 as stated fails on a request without [appId]: [env] is recognised and
    its variable unset, yet the answer is the missing-fields failure, not
    [Invalid environment]. *)
Lemma C9_counterexample :
  get_prop prestaging_no_id_body "env" = JStr "prestaging"
  /\ PRESTAGING_DB_URL sample_cfg = None
  /\ Upsert.handler sample_cfg (post prestaging_no_id_body) seeded_world
     = (Ok (bad_request "Missing required fields: env, appId"), seeded_world)
  /\ fst (Upsert.handler sample_cfg (post prestaging_no_id_body)
            seeded_world)
     <> Ok (bad_request "Invalid environment").
Proof.
  split; [reflexivity|]. split; [reflexivity|]. split; [reflexivity|].
  vm_compute. discriminate.
Qed.

(** ** The strict-update handler *)

Lemma touch_no_match key F (t : list AppRecord) :
  (forall r, r ∈ t -> app_id r <> key) -> touch key F t = t.
Proof.
  intros H. unfold touch. induction t as [|r t IH]; [reflexivity|].
  simpl. rewrite (proj2 (matches_false key r)) by (apply H; left).
  f_equal. apply IH. intros r' Hr'. apply H. right. exact Hr'.
Qed.


Example Strict_query_text :
  render_set_list [SetParam c_app_code 1 false; SetUpdatedAt NOW]
  = "app_code = $1, updated_at = NOW()"
  /\ render_where 2 = "WHERE app_id = $2".
Proof. split; vm_compute; reflexivity. Qed.

(** The strict handler on a request that passes its checks, with no fault:
    one connection, the one [UPDATE], one release; [404] when the statement
    touched no row, otherwise [200] with the first returned row. *)
Lemma Strict_run cfg b w :
  b <> JNull -> b <> JUndefined ->
  truthy (get_prop b "env") = true ->
  truthy (get_prop b "appId") = true ->
  truthy (get_prop b "appCode") = true ->
  truthy (getDbUrl cfg (get_prop b "env")) = true ->
  faults w = [] ->
  Strict.handler cfg (post b) w
  = (Ok match filter (fun r => matches (get_prop b "appId") r = true)
                (table_of w
                   (connection_string (getDbUrl cfg (get_prop b "env")))) with
        | [] => Strict.app_not_found
        | r0 :: _ =>
            {| status := 200;
               body := BStrictUpdated (get_prop b "env") (app_id r0)
                         (Some (clock w)) |}
        end,
     {| stores :=
          <[connection_string (getDbUrl cfg (get_prop b "env")) :=
              touch (get_prop b "appId")
                (with_app_code (get_prop b "appCode") (clock w))
                (table_of w
                   (connection_string (getDbUrl cfg (get_prop b "env"))))]>
            (stores w);
        clock := S (clock w);
        faults := [];
        trace :=
          trace w ++
          [ EvConnect (connection_string (getDbUrl cfg (get_prop b "env")));
            EvQuery
              (Update [SetParam c_app_code 1 false; SetUpdatedAt NOW] 2)
              [get_prop b "appCode"; get_prop b "appId"];
            EvEnd ] |}).
Proof.
  intros Hnull Hundef Henv Hid Hcode Hurl Hf.
  set (conn := connection_string _).
  rewrite Strict_handler_post.
  unfold try_catch, Strict.try_block, bind, readBody.
  change (payload (post b)) with (Some b). unfold ret at 1. cbv beta iota.
  rewrite Strict_destructure_ok by assumption. unfold ret at 1.
  cbv beta iota.
  change (Strict.env (Strict.fields b)) with (get_prop b "env").
  change (Strict.appId (Strict.fields b)) with (get_prop b "appId").
  change (Strict.appCode (Strict.fields b)) with (get_prop b "appCode").
  rewrite Henv, Hid, Hcode, Hurl. cbn [negb orb]. cbv iota. fold conn.
  unfold client_connect, bind, record_call. cbv beta iota.
  rewrite io_no_faults by exact Hf.
  unfold Strict.query, Strict.values.
  change (Strict.appId (Strict.fields b)) with (get_prop b "appId").
  change (Strict.appCode (Strict.fields b)) with (get_prop b "appCode").
  erewrite client_query_update_run; [|exact Hf|reflexivity|reflexivity].
  simpl clock. simpl trace. simpl stores.
  change (table_of _ conn) with (table_of w conn).
  change (touch (get_prop b "appId") (apply_all _))
    with (touch (get_prop b "appId")
            (with_app_code (get_prop b "appCode") (clock w))).
  rewrite client_end_run. simpl.
  unfold touch at 1 2 3. rewrite update_hits by reflexivity.
  rewrite length_map.
  destruct (filter _ (table_of w conn)) as [|r0 rest]; simpl;
    rewrite <- !app_assoc; reflexivity.
Qed.

Lemma table_of_insert w' conn t u m :
  stores w' = <[conn := t]> m ->
  table_of w' u = if decide (conn = u) then t else default [] (m !! u).
Proof.
  intros H. unfold table_of. rewrite H, lookup_insert.
  destruct (decide (conn = u)); reflexivity.
Qed.



(** ** The update set *)

(** The seven tests of the update branch are one pass over
    [optional_fields]. *)
Lemma build_update_set_fold d :
  Upsert.build_update_set d
  = fold_left push_optional (optional_fields d)
      {| Upsert.updates := []; Upsert.values := []; Upsert.idx := 1 |}.
Proof. reflexivity. Qed.

(** Invariant of that pass, from any state: what is appended is the
    assignments and values of the present fields, in order, numbered from the
    running index on. *)
Lemma push_all (fs : list Optional) (st : Upsert.UpdateSet) :
  Upsert.updates (fold_left push_optional fs st)
  = Upsert.updates st
    ++ imap (fun i o => SetParam (opt_column o) (Upsert.idx st + i)
                          (opt_jsonb o))
         (List.filter is_present fs)
  /\ Upsert.values (fold_left push_optional fs st)
     = Upsert.values st ++ map opt_bound (List.filter is_present fs)
  /\ Upsert.idx (fold_left push_optional fs st)
     = Upsert.idx st + length (List.filter is_present fs).
Proof.
  revert st. induction fs as [|o fs IH]; intros st.
  - simpl. rewrite !app_nil_r, Nat.add_0_r. repeat split.
  - simpl fold_left. simpl List.filter.
    destruct (IH (push_optional st o)) as (IHu & IHv & IHi).
    rewrite IHu, IHv, IHi. clear IHu IHv IHi.
    unfold push_optional, Upsert.push_if_defined, is_present.
    destruct (defined (opt_value o)).
    + simpl. rewrite <- !app_assoc. simpl. rewrite Nat.add_0_r.
      repeat split.
      * do 2 f_equal. apply imap_ext. intros i x _. simpl.
        f_equal. lia.
      * lia.
    + repeat split.
Qed.

Lemma build_update_set_present d :
  Upsert.updates (Upsert.build_update_set d) = imap assignment (present d)
  /\ Upsert.values (Upsert.build_update_set d) = map opt_bound (present d)
  /\ Upsert.idx (Upsert.build_update_set d) = S (length (present d)).
Proof.
  rewrite build_update_set_fold.
  destruct (push_all (optional_fields d)
              {| Upsert.updates := []; Upsert.values := [];
                 Upsert.idx := 1 |}) as (Hu & Hv & Hi).
  rewrite Hu, Hv, Hi. repeat split.
Qed.

(** C8. In the update branch, for every descriptor: [updates] and [values]
    list the present optional fields in the same order -- position [i] (from
    zero) of [updates] assigns the [i]-th present field from placeholder
    [$(i+1)], and position [i] of [values], which is what [$(i+1)] denotes,
    is that field's bound value; after the two final pushes the [SET] list
    ends with the timestamp item, the [WHERE] placeholder is one more than
    the number of present fields, and the value it denotes is [appId], the
    last one pushed. *)
Theorem C8_assignments_and_values_aligned (d : Upsert.Descriptor) :
  Upsert.updates (Upsert.build_update_set d) = imap assignment (present d)
  /\ Upsert.values (Upsert.build_update_set d) = map opt_bound (present d)
  /\ length (Upsert.updates (Upsert.build_update_set d))
     = length (Upsert.values (Upsert.build_update_set d))
  /\ Upsert.updateQuery d
     = Update (imap assignment (present d) ++ [SetUpdatedAt CURRENT_TIMESTAMP])
         (S (length (present d)))
  /\ Upsert.update_values d = map opt_bound (present d) ++ [Upsert.appId d]
  /\ param (Upsert.update_values d) (S (length (present d)))
     = Some (Upsert.appId d)
  /\ last (Upsert.update_values d) = Some (Upsert.appId d)
  /\ forall i o,
       present d !! i = Some o ->
       Upsert.update_sets d !! i
       = Some (SetParam (opt_column o) (S i) (opt_jsonb o))
       /\ render_set (SetParam (opt_column o) (S i) (opt_jsonb o))
          = (if opt_jsonb o
             then column_name (opt_column o) +:+ " = $" +:+ pretty (S i)
                  +:+ "::jsonb"
             else column_name (opt_column o) +:+ " = $" +:+ pretty (S i))
       /\ param (Upsert.update_values d) (S i) = Some (opt_bound o)
       /\ forall now,
            resolve_set now (Upsert.update_values d)
              (SetParam (opt_column o) (S i) (opt_jsonb o))
            = Some (set_column (opt_column o) (opt_bound o)).
Proof.
  destruct (build_update_set_present d) as (Hu & Hv & Hi).
  unfold Upsert.updateQuery, Upsert.update_sets, Upsert.update_values.
  rewrite Hu, Hv, Hi.
  split; [reflexivity|]. split; [reflexivity|].
  split; [rewrite length_imap, length_map; reflexivity|].
  split; [reflexivity|]. split; [reflexivity|].
  assert (forall i o, present d !! i = Some o ->
            param (map opt_bound (present d) ++ [Upsert.appId d]) (S i)
            = Some (opt_bound o)) as Hparam.
  { intros i o Hi'. simpl.
    rewrite lookup_app_l
      by (rewrite length_map; eapply lookup_lt_Some; exact Hi').
    change (map opt_bound (present d)) with (opt_bound <$> present d).
    rewrite list_lookup_fmap, Hi'. reflexivity. }
  split.
  { simpl. apply list_lookup_middle. rewrite length_map. reflexivity. }
  split; [apply last_snoc|].
  intros i o Hi'. split.
  { rewrite lookup_app_l
      by (rewrite length_imap; eapply lookup_lt_Some; exact Hi').
    rewrite list_lookup_imap, Hi'. reflexivity. }
  split; [destruct (opt_jsonb o); reflexivity|].
  split; [apply Hparam, Hi'|].
  intros now. unfold resolve_set. rewrite (Hparam i o Hi'). reflexivity.
Qed.

Lemma C8_witness :
  Upsert.update_sets (Upsert.fields scenario_body) !! 1
  = Some (SetParam c_app_version 2 false)
  /\ render_set (SetParam c_app_version 2 false) = "app_version = $2"
  /\ param (Upsert.update_values (Upsert.fields scenario_body)) 2
     = Some (JStr "1.0").
Proof.
  destruct (C8_assignments_and_values_aligned (Upsert.fields scenario_body))
    as (_ & _ & _ & _ & _ & _ & _ & H).
  destruct (H 1 {| opt_column := c_app_version; opt_jsonb := false;
                   opt_value := JStr "1.0"; opt_bound := JStr "1.0" |})
    as (Hs & Hr & Hp & _); [reflexivity|].
  split; [exact Hs|]. split; [exact Hr | exact Hp].
Defined.

Example update_text_of_scenario_fields :
  render_set_list (Upsert.update_sets (Upsert.fields scenario_body))
  = "app_name = $1, app_version = $2, app_code = $3, has_triggers = $4, has_actions = $5, updated_at = CURRENT_TIMESTAMP"
  /\ Upsert.updateQuery (Upsert.fields scenario_body)
     = Update (Upsert.update_sets (Upsert.fields scenario_body)) 6
  /\ render_where 6 = "WHERE app_id = $6".
Proof. repeat split; vm_compute; reflexivity. Qed.

(** ** Where the handlers part from the specification *)

(** The update branch rejects an update that names no field by throwing, and
    the [catch] block turns every throw into a [500]: for every body that
    holds nothing but [env] and [appId], aimed at an existing row, with no
    store fault, the answer is [500 No fields provided to update]; no [UPDATE]
    is sent and the tables are as they were. *)
Lemma Upsert_empty_update_is_internal_error cfg ps w r :
  (forall k, k <> "env" -> k <> "appId" -> assoc k ps = JUndefined) ->
  truthy (assoc "env" ps) = true ->
  truthy (assoc "appId" ps) = true ->
  truthy (getDbUrl cfg (assoc "env" ps)) = true ->
  faults w = [] ->
  r ∈ table_of w (connection_string (getDbUrl cfg (assoc "env" ps))) ->
  app_id r = assoc "appId" ps ->
  Upsert.handler cfg (post (JObj ps)) w
  = (Ok {| status := 500; body := BFailure "No fields provided to update" |},
     {| stores := stores w;
        clock := S (clock w);
        faults := [];
        trace :=
          trace w ++
          [ EvConnect (connection_string (getDbUrl cfg (assoc "env" ps)));
            EvQuery SelectAppId [assoc "appId" ps];
            EvEnd ] |}).
Proof.
  intros Honly Henv Hid Hurl Hf Hin Hkey.
  set (conn := connection_string _) in *.
  rewrite Upsert_handler_post. unfold try_finally, try_catch.
  rewrite Upsert_reaches_store by (assumption || discriminate).
  change (Upsert.appId (Upsert.fields (JObj ps))) with (assoc "appId" ps).
  change (Upsert.env (Upsert.fields (JObj ps))) with (assoc "env" ps).
  fold conn.
  rewrite (hits_exists _ _ r Hin Hkey).
  unfold Upsert.fields, get_prop.
  rewrite !(Honly "appName"), !(Honly "appVersion"), !(Honly "appCode"),
    !(Honly "hasTriggers"), !(Honly "hasActions"), !(Honly "gitSha"),
    !(Honly "tags") by discriminate.
  cbv iota.
  unfold Upsert.update_branch.
  change (length _ =? 1) with true. cbv iota.
  unfold throw, Upsert.catch_block, ret, Upsert.finally_block, Upsert.lift.
  simpl. rewrite <- !app_assoc. reflexivity.
Qed.

(** C2. The specification maps the empty update to a bad request.  On
    [{appId: "a1", env: "staging"}] against a staging table that holds [a1]
    the handler answers [500], its internal-failure response, with the
    reason [No fields provided to update]; no [UPDATE] is sent and nothing is
    written. *)
Theorem C2_empty_update_answers_500 :
  Upsert.handler sample_cfg (post bare_body) seeded_world
  = (Ok {| status := 500; body := BFailure "No fields provided to update" |},
     {| stores := stores seeded_world;
        clock := 11;
        faults := [];
        trace := [EvConnect staging; EvQuery SelectAppId [JStr "a1"];
                  EvEnd] |})
  /\ status (internal_error "No fields provided to update") <> 400.
Proof.
  split; [|discriminate].
  apply (Upsert_empty_update_is_internal_error sample_cfg
           [("appId", JStr "a1"); ("env", JStr "staging")] seeded_world
           svc_record); try reflexivity.
  - no_other_key.
  - vm_compute. left.
Qed.

(** C1. The specification's scenario has this request create the record.
    On the scenario's body against an empty staging store the handler does
    not: [hasActions] is [false], the creation guard tests [!hasActions], and
    the answer is [400] with the creation-fields message; no [INSERT] is sent
    and no row is stored. *)
Theorem C1_scenario_creation_rejected :
  Upsert.handler sample_cfg (post scenario_body) empty_world
  = (Ok {| status := 400;
           body := BFailure "appName, appVersion and appCode are required when creating a new app" |},
     {| stores := empty;
        clock := 1;
        faults := [];
        trace := [EvConnect staging; EvQuery SelectAppId [JStr "a1"];
                  EvEnd] |}).
Proof. vm_compute. reflexivity. Qed.

(** The same request with [hasActions: true] creates the row, and on an
    existing row the update branch takes [hasActions: false] as a value. *)
Example creation_with_both_flags_true :
  fst (Upsert.handler sample_cfg (post scenario_body_true) empty_world)
  = Ok {| status := 200;
          body := BCreated (JStr "staging") (JStr "a1") (Some 1) |}
  /\ app_id <$> head (table_of
                        (snd (Upsert.handler sample_cfg
                                (post scenario_body_true) empty_world))
                        staging)
     = Some (JStr "a1").
Proof. split; vm_compute; reflexivity. Qed.

Example update_accepts_false_flag :
  fst (Upsert.handler sample_cfg (post scenario_body) seeded_world)
  = Ok {| status := 200;
          body := BUpdated (JStr "staging") (JStr "a1") (Some 11) |}
  /\ has_actions <$> head (table_of
                             (snd (Upsert.handler sample_cfg
                                     (post scenario_body) seeded_world))
                             staging)
     = Some (JBool false).
Proof. split; vm_compute; reflexivity. Qed.

(** C3. The specification has every exit path of both variants release the
    connection.  The strict handler does not on a store failure: on a request
    that passes its checks, with a database that accepts the connection and
    fails the statement, it answers [500] and the trace holds the connection
    and the statement and no release. *)
Theorem C3_strict_leaks_on_store_failure :
  fst (Strict.handler sample_cfg (post code_body) failing_world)
  = Ok {| status := 500; body := BFailure "terminating connection" |}
  /\ trace (snd (Strict.handler sample_cfg (post code_body) failing_world))
     = [ EvConnect staging;
         EvQuery (Update [SetParam c_app_code 1 false; SetUpdatedAt NOW] 2)
           [JStr "v2"; JStr "a1"] ]
  /\ acquires
       (trace (snd (Strict.handler sample_cfg (post code_body) failing_world)))
     = 1
  /\ releases
       (trace (snd (Strict.handler sample_cfg (post code_body) failing_world)))
     = 0.
Proof. repeat split; vm_compute; reflexivity. Qed.

(** On the same input the upsert handler releases what it acquired. *)
Example upsert_releases_on_store_failure :
  trace (snd (Upsert.handler sample_cfg (post code_body) failing_world))
  = [EvConnect staging; EvQuery SelectAppId [JStr "a1"]; EvEnd].
Proof. vm_compute. reflexivity. Qed.

(** Without a fault the strict handler is balanced as well. *)
Lemma Strict_balanced_without_fault cfg b w :
  b <> JNull -> b <> JUndefined ->
  faults w = [] ->
  exists tr,
    trace (snd (Strict.handler cfg (post b) w)) = trace w ++ tr
    /\ releases tr = acquires tr.
Proof.
  intros Hnull Hundef Hf.
  assert (exists tr, trace w = trace w ++ tr /\ releases tr = acquires tr)
    as Hquiet by (exists []; rewrite app_nil_r; split; reflexivity).
  destruct (truthy (get_prop b "env")) eqn:Henv;
    [|rewrite Strict_missing_fields by auto; exact Hquiet].
  destruct (truthy (get_prop b "appId")) eqn:Hid;
    [|rewrite Strict_missing_fields by auto; exact Hquiet].
  destruct (truthy (get_prop b "appCode")) eqn:Hcode;
    [|rewrite Strict_missing_fields by auto; exact Hquiet].
  destruct (truthy (getDbUrl cfg (get_prop b "env"))) eqn:Hurl;
    [|rewrite Strict_invalid_environment by auto; exact Hquiet].
  rewrite Strict_run by assumption.
  eexists. split; [reflexivity|]. reflexivity.
Qed.

(** * Further properties of the handlers *)

(** ** What the database makes of the update statement *)

Lemma table_of_stores w1 w2 u :
  stores w1 = stores w2 -> table_of w1 u = table_of w2 u.
Proof. unfold table_of. intros ->. reflexivity. Qed.

Lemma apply_all_app fs gs r :
  apply_all (fs ++ gs) r = apply_all gs (apply_all fs r).
Proof. unfold apply_all. apply fold_left_app. Qed.

(** Every placeholder of the update statement is bound, each to its own
    field's value. *)
Lemma update_statement_resolves d now :
  mapM (resolve_set now (Upsert.update_values d)) (Upsert.update_sets d)
  = Some (map setter (present d) ++ [set_updated_at now]).
Proof.
  destruct (build_update_set_present d) as (Hu & Hv & _).
  unfold Upsert.update_sets, Upsert.update_values. rewrite Hu, Hv.
  apply mapM_Some_2, Forall2_app.
  - apply Forall2_same_length_lookup_2.
    + rewrite length_imap, length_map. reflexivity.
    + intros i s f Hs Hf.
      rewrite list_lookup_imap in Hs.
      change (map setter (present d)) with (setter <$> present d) in Hf.
      rewrite list_lookup_fmap in Hf.
      destruct (present d !! i) as [o|] eqn:Ho; [|discriminate].
      simpl in Hs, Hf. injection Hs as <-. injection Hf as <-.
      unfold assignment, resolve_set. simpl param.
      rewrite lookup_app_l
        by (rewrite length_map; eapply lookup_lt_Some; exact Ho).
      change (map opt_bound (present d)) with (opt_bound <$> present d).
      rewrite list_lookup_fmap, Ho. reflexivity.
  - repeat constructor.
Qed.

Lemma update_where_param d :
  param (Upsert.update_values d) (Upsert.idx (Upsert.build_update_set d))
  = Some (Upsert.appId d).
Proof.
  destruct (build_update_set_present d) as (_ & Hv & Hi).
  unfold Upsert.update_values. rewrite Hv, Hi. simpl.
  apply list_lookup_middle. rewrite length_map. reflexivity.
Qed.

Lemma update_sets_length d :
  length (Upsert.update_sets d) = S (length (present d)).
Proof.
  destruct (build_update_set_present d) as (Hu & _ & _).
  unfold Upsert.update_sets.
  rewrite Hu, length_app, length_imap. simpl. lia.
Qed.

Lemma setter_keeps o r :
  app_id (setter o r) = app_id r /\ created_at (setter o r) = created_at r
  /\ updated_at (setter o r) = updated_at r.
Proof. unfold setter. destruct (opt_column o); repeat split. Qed.

Lemma apply_setters_keep l r :
  app_id (apply_all (map setter l) r) = app_id r
  /\ created_at (apply_all (map setter l) r) = created_at r
  /\ updated_at (apply_all (map setter l) r) = updated_at r.
Proof.
  revert r. induction l as [|o l IH]; intros r; [repeat split|].
  simpl. unfold apply_all in *. simpl.
  destruct (IH (setter o r)) as (H1 & H2 & H3).
  destruct (setter_keeps o r) as (K1 & K2 & K3).
  rewrite H1, H2, H3. repeat split; assumption.
Qed.

Lemma updated_row_keeps d now r :
  app_id (updated_row d now r) = app_id r
  /\ created_at (updated_row d now r) = created_at r
  /\ updated_at (updated_row d now r) = now.
Proof.
  unfold updated_row. destruct (apply_setters_keep (present d) r) as (H1 & H2 & _).
  repeat split; simpl; assumption.
Qed.

(** The update statement of [d], run at [now] on table [t]. *)
Lemma exec_update_statement d now t :
  exec (Upsert.updateQuery d) (Upsert.update_values d) now t
  = inr ({| rowCount :=
              length (filter (fun r => matches (Upsert.appId d) r = true) t);
            rows :=
              map returned_row
                (map (updated_row d now)
                   (filter (fun r => matches (Upsert.appId d) r = true) t))
         |},
         touch (Upsert.appId d) (updated_row d now) t).
Proof.
  unfold Upsert.updateQuery, exec.
  rewrite update_statement_resolves, update_where_param.
  assert (map (fun r => if matches (Upsert.appId d) r
                        then apply_all (map setter (present d)
                                        ++ [set_updated_at now]) r
                        else r) t
          = touch (Upsert.appId d) (updated_row d now) t) as ->.
  { unfold touch. apply map_ext. intros r.
    rewrite apply_all_app. reflexivity. }
  unfold touch.
  rewrite update_hits by (intros r; apply updated_row_keeps).
  rewrite length_map. reflexivity.
Qed.

Lemma exec_select key now t :
  exec SelectAppId [key] now t
  = inr ({| rowCount :=
              length (filter (fun r => matches key r = true) t);
            rows :=
              map (fun r => {| row_app_id := app_id r;
                               row_created_at := None;
                               row_updated_at := None |})
                (filter (fun r => matches key r = true) t) |}, t).
Proof. reflexivity. Qed.

Lemma exec_insert d now t :
  exec Insert (Upsert.insertValues d) now t
  = if existsb (matches (Upsert.appId d)) t then inl unique_violation
    else inr ({| rowCount := 1;
                 rows := [{| row_app_id := Upsert.appId d;
                             row_created_at := Some now;
                             row_updated_at := None |}] |},
              t ++ [created_row d now]).
Proof. reflexivity. Qed.

Lemma exec_strict d now t :
  exec Strict.query (Strict.values d) now t
  = inr ({| rowCount :=
              length (filter (fun r => matches (Strict.appId d) r = true) t);
            rows :=
              map returned_row
                (map (with_app_code (Strict.appCode d) now)
                   (filter (fun r => matches (Strict.appId d) r = true) t))
         |},
         touch (Strict.appId d) (with_app_code (Strict.appCode d) now) t).
Proof.
  unfold Strict.query, Strict.values, exec.
  change (mapM _ _)
    with (Some [set_column c_app_code (Strict.appCode d);
                set_updated_at now]).
  change (param _ 2) with (Some (Strict.appId d)). cbv beta iota.
  change (map (fun r => if matches (Strict.appId d) r
                        then apply_all _ r else r) t)
    with (touch (Strict.appId d) (with_app_code (Strict.appCode d) now) t).
  unfold touch. rewrite update_hits by reflexivity.
  rewrite length_map. reflexivity.
Qed.

(** ** Client calls under any fault script *)

Lemma io_cases w r w' :
  io w = (r, w') ->
  stores w' = stores w /\ clock w' = clock w /\ trace w' = trace w.
Proof.
  unfold io. destruct (faults w) as [|[msg|] rest]; intros [= <- <-];
    repeat split.
Qed.

Lemma client_connect_cases conn w r w' :
  client_connect conn w = (r, w') ->
  trace w' = trace w ++ [EvConnect conn]
  /\ stores w' = stores w /\ clock w' = clock w.
Proof.
  unfold client_connect, bind, record_call.
  destruct (io _) as [[[]|e] w1] eqn:E; intros [= <- <-];
    apply io_cases in E as (Hs & Hk & Ht); repeat split; assumption.
Qed.

Lemma client_query_cases conn q ps w r w' :
  client_query conn q ps w = (r, w') ->
  trace w' = trace w ++ [EvQuery q ps]
  /\ ((exists msg, r = Throw msg /\ stores w' = stores w)
      \/ (exists res t',
            r = Ok res
            /\ exec q ps (clock w) (table_of w conn) = inr (res, t')
            /\ stores w'
               = match q with
                 | SelectAppId => stores w
                 | _ => <[conn := t']> (stores w)
                 end)).
Proof.
  unfold client_query, bind, record_call.
  destruct (io _) as [[[]|e] w1] eqn:E;
    apply io_cases in E as (Hs & Hk & Ht); simpl in Hs, Hk, Ht.
  - rewrite Hk, (table_of_stores w1 w conn Hs).
    destruct (exec q ps (clock w) (table_of w conn)) as [msg|[res t']] eqn:X;
      intros [= <- <-]; (split; [exact Ht|]).
    + left. exists msg. split; [reflexivity | exact Hs].
    + right. exists res, t'. split; [reflexivity|]. split; [reflexivity|].
      simpl. rewrite Hs. reflexivity.
  - intros [= <- <-]. split; [exact Ht|]. left. exists e.
    split; [reflexivity | exact Hs].
Qed.

Lemma hits_nonempty_ltb (hit : list AppRecord) :
  (0 <? length hit) = true <-> hit <> [].
Proof.
  destruct hit; simpl; split; try congruence; try discriminate; reflexivity.
Qed.

(** ** Every way the two branches can end *)

Lemma update_branch_outcome d conn fr r fr' :
  Upsert.update_branch d conn fr = (r, fr') ->
  filter (fun r => matches (Upsert.appId d) r = true)
    (table_of (Upsert.world fr) conn) <> [] ->
  Upsert.client fr' = Upsert.client fr
  /\ ((r = Throw "No fields provided to update" /\ present d = []
       /\ Upsert.world fr' = Upsert.world fr)
      \/ (exists msg,
            r = Throw msg
            /\ stores (Upsert.world fr') = stores (Upsert.world fr)
            /\ trace (Upsert.world fr')
               = trace (Upsert.world fr)
                 ++ [EvQuery (Upsert.updateQuery d) (Upsert.update_values d)])
      \/ (present d <> []
          /\ r = Ok {| status := 200;
                       body := BUpdated (Upsert.env d) (Upsert.appId d)
                                 (Some (clock (Upsert.world fr))) |}
          /\ stores (Upsert.world fr')
             = <[conn := touch (Upsert.appId d)
                           (updated_row d (clock (Upsert.world fr)))
                           (table_of (Upsert.world fr) conn)]>
                 (stores (Upsert.world fr))
          /\ trace (Upsert.world fr')
             = trace (Upsert.world fr)
               ++ [EvQuery (Upsert.updateQuery d) (Upsert.update_values d)])).
Proof.
  intros H Hhit. unfold Upsert.update_branch in H.
  rewrite update_sets_length in H.
  destruct (present d) as [|o l] eqn:Hp.
  { simpl in H. injection H as <- <-. split; [reflexivity|]. left.
    repeat split. }
  assert (present d <> []) as Hne by (rewrite Hp; discriminate).
  rewrite <- Hp in *. clear Hp o l.
  destruct (present d) as [|o l] eqn:Hp; [congruence|].
  change (S (length (o :: l)) =? 1) with false in H. cbv iota in H.
  rewrite <- Hp in *. clear Hp o l.
  unfold bind in H.
  destruct (Upsert.lift _ fr) as [[res|e] fr1] eqn:Q;
    apply lift_run in Q as [Q Hc];
    apply client_query_cases in Q as (Ht & [(msg & Hr & Hs) | (res' & t' & Hr & Hx & Hs)]);
    try discriminate.
  - injection Hr as <-. rewrite exec_update_statement in Hx.
    injection Hx as <- <-. simpl rows in H.
    destruct (filter _ (table_of (Upsert.world fr) conn)) as [|r0 rest] eqn:F;
      [congruence|].
    assert (app_id r0 = Upsert.appId d) as Hr0.
    { apply matches_spec.
      assert (r0 ∈ filter (fun r => matches (Upsert.appId d) r = true)
                     (table_of (Upsert.world fr) conn)) as Hin
        by (rewrite F; left).
      apply list_elem_of_filter in Hin as [Hin _]. exact Hin. }
    destruct (apply_setters_keep (present d) r0) as (K1 & _ & _).
    simpl in H. unfold ret in H. injection H as <- <-.
    split; [exact Hc|]. right. right.
    split; [exact Hne|]. rewrite K1, Hr0.
    split; [reflexivity|]. split; [exact Hs | exact Ht].
  - injection Hr as ->. injection H as <- <-.
    split; [exact Hc|]. right. left. exists msg. repeat split; assumption.
Qed.

Lemma insert_branch_outcome d conn fr r fr' :
  Upsert.insert_branch d conn fr = (r, fr') ->
  Upsert.client fr' = Upsert.client fr
  /\ ((r = Ok (bad_request Upsert.creation_fields_error)
       /\ Upsert.world fr' = Upsert.world fr)
      \/ (exists msg,
            r = Throw msg
            /\ stores (Upsert.world fr') = stores (Upsert.world fr)
            /\ trace (Upsert.world fr')
               = trace (Upsert.world fr)
                 ++ [EvQuery Insert (Upsert.insertValues d)])
      \/ (r = Ok {| status := 200;
                    body := BCreated (Upsert.env d) (Upsert.appId d)
                              (Some (clock (Upsert.world fr))) |}
          /\ stores (Upsert.world fr')
             = <[conn := table_of (Upsert.world fr) conn
                         ++ [created_row d (clock (Upsert.world fr))]]>
                 (stores (Upsert.world fr))
          /\ trace (Upsert.world fr')
             = trace (Upsert.world fr)
               ++ [EvQuery Insert (Upsert.insertValues d)])).
Proof.
  intros H. unfold Upsert.insert_branch in H.
  destruct (_ || _).
  { injection H as <- <-. split; [reflexivity|]. left. split; reflexivity. }
  unfold bind in H.
  destruct (Upsert.lift _ fr) as [[res|e] fr1] eqn:Q;
    apply lift_run in Q as [Q Hc];
    apply client_query_cases in Q as (Ht & [(msg & Hr & Hs) | (res' & t' & Hr & Hx & Hs)]);
    try discriminate.
  - injection Hr as <-. rewrite exec_insert in Hx.
    destruct (existsb _ _); [discriminate|].
    injection Hx as <- <-. simpl in H. unfold ret in H.
    injection H as <- <-.
    split; [exact Hc|]. right. right.
    split; [reflexivity|]. split; [exact Hs | exact Ht].
  - injection Hr as ->. injection H as <- <-.
    split; [exact Hc|]. right. left. exists msg. repeat split; assumption.
Qed.

Lemma frame_eta fr conn :
  Upsert.client fr = Some conn ->
  fr = {| Upsert.world := Upsert.world fr; Upsert.client := Some conn |}.
Proof. destruct fr as [w c]. simpl. intros ->. reflexivity. Qed.

(** The upsert [try] block always ends in one of the listed ways, whatever
    the request, the tables and the fault script. *)
Lemma Upsert_try_block_outcome cfg req w r fr :
  Upsert.try_block cfg req {| Upsert.world := w; Upsert.client := None |}
  = (r, fr) ->
  try_outcome cfg req w r fr.
Proof.
  unfold Upsert.try_block, bind, readBody.
  destruct (payload req) as [b|] eqn:Hp;
    [|intros [= <- <-]; apply TO_unreadable; auto].
  unfold ret at 1. cbv beta iota.
  destruct (Upsert.destructure b _) as [[d|e] fr0] eqn:D.
  2:{ unfold Upsert.destructure in D.
      destruct b; inversion D; subst; intros [= <- <-];
        apply TO_unreadable; auto. }
  assert (fr0 = {| Upsert.world := w; Upsert.client := None |}
          /\ d = Upsert.fields b) as [-> ->].
  { unfold Upsert.destructure in D.
    destruct b; inversion D; split; reflexivity. }
  clear D.
  destruct (_ || _); [intros [= <- <-]; apply TO_turned_away|].
  change (Upsert.env (Upsert.fields b)) with (get_prop b "env").
  destruct (truthy (getDbUrl cfg (get_prop b "env"))) eqn:Hurl;
    [|intros [= <- <-]; apply TO_turned_away].
  cbn [negb]. cbv iota.
  set (conn := connection_string _). set (d := Upsert.fields b).
  unfold Upsert.assign_client.
  destruct (Upsert.lift (client_connect conn) _) as [[[]|e] fr1] eqn:C;
    apply lift_run in C as [C Hc1];
    apply client_connect_cases in C as (Ht1 & Hs1 & _);
    simpl in Ht1, Hs1, Hc1.
  2:{ intros [= <- <-]. rewrite (frame_eta _ _ Hc1).
      eapply TO_store; [exact Hp | exact Hurl | reflexivity|].
      apply SO_connect_failed; assumption. }
  destruct (Upsert.lift (client_query _ _ _) fr1) as [[res|e] fr2] eqn:Q;
    apply lift_run in Q as [Q Hc2]; rewrite Hc1 in Hc2;
    apply client_query_cases in Q
      as (Ht2 & [(msg & Hr & Hs2) | (res' & t' & Hr & Hx & Hs2)]);
    try discriminate.
  2:{ intros [= <- <-]. rewrite (frame_eta _ _ Hc2).
      eapply TO_store; [exact Hp | exact Hurl | reflexivity|].
      apply SO_select_failed; [congruence|].
      rewrite Ht2, Ht1, <- app_assoc. reflexivity. }
  injection Hr as <-. rewrite exec_select in Hx. injection Hx as <- _.
  cbn [rowCount].
  rewrite (table_of_stores _ _ conn Hs1).
  rewrite Hs1 in Hs2.
  assert (trace (Upsert.world fr2)
          = trace w ++ [EvConnect conn;
                        EvQuery SelectAppId [Upsert.appId d]]) as Ht
    by (rewrite Ht2, Ht1, <- app_assoc; reflexivity).
  clear Ht1 Ht2 Hs1 Hc1 fr1.
  destruct (0 <? length _) eqn:Hn; intros H.
  - apply hits_nonempty_ltb in Hn.
    apply update_branch_outcome in H
      as (Hc3 & [(-> & Hp0 & Hw)
                | [(msg & -> & Hs3 & Ht3)
                  | (Hp1 & -> & Hs3 & Ht3)]]);
      try (rewrite (table_of_stores _ _ conn Hs2); exact Hn);
      rewrite Hc2 in Hc3; rewrite (frame_eta _ _ Hc3);
      (eapply TO_store; [exact Hp | exact Hurl | reflexivity|]).
    + apply SO_empty_update; try assumption; rewrite Hw; assumption.
    + apply SO_update_failed; [assumption | congruence|].
      rewrite Ht3, Ht, <- app_assoc. reflexivity.
    + apply SO_updated; try assumption.
      * rewrite Hs3, Hs2, (table_of_stores _ _ conn Hs2). reflexivity.
      * rewrite Ht3, Ht, <- app_assoc. reflexivity.
  - assert (filter (fun r => matches (Upsert.appId d) r = true)
              (table_of w conn) = []) as Hnone.
    { destruct (filter _ (table_of w conn)); [reflexivity | discriminate]. }
    apply insert_branch_outcome in H
      as (Hc3 & [(-> & Hw)
                | [(msg & -> & Hs3 & Ht3)
                  | (-> & Hs3 & Ht3)]]);
      rewrite Hc2 in Hc3; rewrite (frame_eta _ _ Hc3);
      (eapply TO_store; [exact Hp | exact Hurl | reflexivity|]).
    + apply SO_refused; try assumption; rewrite Hw; assumption.
    + apply SO_insert_failed; [assumption | congruence|].
      rewrite Ht3, Ht, <- app_assoc. reflexivity.
    + apply SO_created; try assumption.
      * rewrite Hs3, Hs2, (table_of_stores _ _ conn Hs2). reflexivity.
      * rewrite Ht3, Ht, <- app_assoc. reflexivity.
Qed.

(** The whole upsert handler: off the route it answers [404] at once; on the
    route the [catch] block turns a throw into a [500] and the [finally]
    block ends the client when there is one. *)
Lemma Upsert_handler_outcome cfg req w :
  (on_route req = false /\ Upsert.handler cfg req w = (Ok not_found, w))
  \/ (on_route req = true
      /\ exists r fr,
           try_outcome cfg req w r fr
           /\ Upsert.handler cfg req w
              = (Ok match r with
                    | Ok resp => resp
                    | Throw e => internal_error e
                    end,
                 match Upsert.client fr with
                 | Some _ => snd (client_end (Upsert.world fr))
                 | None => Upsert.world fr
                 end)).
Proof.
  unfold Upsert.handler, on_route.
  destruct (String.eqb (method req) "POST");
    [|left; split; reflexivity].
  destruct (String.eqb (url req) "/publish");
    [|left; split; reflexivity].
  right. split; [reflexivity|]. cbn [negb orb]. cbv iota.
  unfold try_finally, try_catch, Upsert.catch_block, Upsert.finally_block.
  destruct (Upsert.try_block cfg req _) as [r fr] eqn:T.
  apply Upsert_try_block_outcome in T.
  exists r, fr. split; [exact T|].
  destruct r as [resp|e]; unfold ret, Upsert.lift;
    destruct (Upsert.client fr); reflexivity.
Qed.

Lemma store_outcome_status d conn w r w2 :
  store_outcome d conn w r w2 ->
  (exists e, r = Throw e)
  \/ (exists resp, r = Ok resp /\ (status resp = 200 \/ status resp = 400)).
Proof.
  intros []; try (left; eexists; reflexivity);
    right; eexists; (split; [reflexivity|]); auto.
Qed.

Lemma store_outcome_stores d conn w r w2 :
  store_outcome d conn w r w2 ->
  stores w2 = stores w
  \/ (exists resp t', r = Ok resp /\ status resp = 200
                      /\ stores w2 = <[conn := t']> (stores w)).
Proof.
  intros []; try (left; assumption);
    right; eexists _, _; (split; [reflexivity|]);
    (split; [reflexivity | eassumption]).
Qed.

(** ** Environment routing, read backwards *)

(** [getDbUrl] yields a usable (truthy) endpoint exactly when [env] is one of
    the three names, spelled exactly, and that name's variable holds a
    non-empty string; the endpoint is then that string. *)
Theorem getDbUrl_truthy_iff cfg env :
  truthy (getDbUrl cfg env) = true
  <-> exists conn,
        conn <> EmptyString
        /\ getDbUrl cfg env = JStr conn
        /\ ((env = JStr "prestaging" /\ PRESTAGING_DB_URL cfg = Some conn)
            \/ (env = JStr "staging" /\ STAGING_DB_URL cfg = Some conn)
            \/ (env = JStr "production"
                /\ PRODUCTION_DB_URL cfg = Some conn)).
Proof.
  split.
  - unfold getDbUrl, strict_eq_str.
    destruct env as [ | | | | s | | ]; try discriminate.
    destruct (String.eqb_spec s "prestaging") as [->|_].
    { destruct (PRESTAGING_DB_URL cfg) as [c|]; [|discriminate].
      simpl. intros H. exists c.
      destruct (String.eqb_spec c EmptyString); [discriminate|]. auto 6. }
    destruct (String.eqb_spec s "staging") as [->|_].
    { destruct (STAGING_DB_URL cfg) as [c|]; [|discriminate].
      simpl. intros H. exists c.
      destruct (String.eqb_spec c EmptyString); [discriminate|]. auto 7. }
    destruct (String.eqb_spec s "production") as [->|_]; [|discriminate].
    destruct (PRODUCTION_DB_URL cfg) as [c|]; [|discriminate].
    simpl. intros H. exists c.
    destruct (String.eqb_spec c EmptyString); [discriminate|]. auto 7.
  - intros (conn & Hne & -> & _). simpl.
    destruct (String.eqb_spec conn EmptyString); [contradiction|reflexivity].
Qed.

Lemma getDbUrl_configured cfg env :
  truthy (getDbUrl cfg env) = true ->
  configured cfg (connection_string (getDbUrl cfg env)).
Proof.
  intros H. apply getDbUrl_truthy_iff in H as (conn & Hne & -> & Hc).
  simpl. split; [exact Hne|]. tauto.
Qed.

(** ** What a run can do to the tables *)

Lemma touch_keeps key F t :
  (forall r, app_id (F r) = app_id r /\ created_at (F r) = created_at r) ->
  map app_id (touch key F t) = map app_id t
  /\ map created_at (touch key F t) = map created_at t.
Proof.
  intros HF. unfold touch. rewrite !map_map.
  split; apply map_ext; intros r; destruct (matches key r);
    try reflexivity; apply HF.
Qed.

Lemma hits_none_absent key (t : list AppRecord) :
  filter (fun r => matches key r = true) t = [] ->
  key ∉ map app_id t.
Proof.
  intros H Hin. apply list_elem_of_In, in_map_iff in Hin as (r & Hr & Hin).
  apply list_elem_of_In in Hin.
  eapply (filter_nil_not_elem_of _ _ _ H); [|exact Hin].
  apply matches_spec. exact Hr.
Qed.

(** The tables after a run against the store: every table but the one behind
    [conn] is as it was; that one is as it was, or has had rows rewritten in
    place with their key and creation time kept, or has one row more, under a
    key no row had. *)
Lemma store_outcome_table d conn w r w2 u :
  store_outcome d conn w r w2 ->
  table_of w2 u = table_of w u
  \/ (u = conn
      /\ ((map app_id (table_of w2 u) = map app_id (table_of w u)
           /\ map created_at (table_of w2 u) = map created_at (table_of w u))
          \/ (exists row,
                table_of w2 u = table_of w u ++ [row]
                /\ app_id row ∉ map app_id (table_of w u)))).
Proof.
  intros []; try (left; apply table_of_stores; assumption).
  - destruct (decide (conn = u)) as [<-|Hne].
    + right. split; [reflexivity|]. left.
      erewrite table_of_insert by eassumption.
      destruct (decide (conn = conn)); [|congruence].
      apply touch_keeps. intros r0.
      destruct (updated_row_keeps d now r0) as (? & ? & _). split; assumption.
    + left. erewrite table_of_insert by eassumption.
      destruct (decide (conn = u)); [congruence | reflexivity].
  - destruct (decide (conn = u)) as [<-|Hne].
    + right. split; [reflexivity|]. right. exists (created_row d now).
      erewrite table_of_insert by eassumption.
      destruct (decide (conn = conn)); [|congruence].
      split; [reflexivity|]. apply hits_none_absent. assumption.
    + left. erewrite table_of_insert by eassumption.
      destruct (decide (conn = u)); [congruence | reflexivity].
Qed.

Lemma Upsert_handler_tables cfg req w u :
  table_of (snd (Upsert.handler cfg req w)) u = table_of w u
  \/ (exists b,
        payload req = Some b
        /\ u = connection_string (getDbUrl cfg (get_prop b "env"))
        /\ ((map app_id (table_of (snd (Upsert.handler cfg req w)) u)
             = map app_id (table_of w u)
             /\ map created_at (table_of (snd (Upsert.handler cfg req w)) u)
                = map created_at (table_of w u))
            \/ (exists row,
                  table_of (snd (Upsert.handler cfg req w)) u
                  = table_of w u ++ [row]
                  /\ app_id row ∉ map app_id (table_of w u)))).
Proof.
  destruct (Upsert_handler_outcome cfg req w)
    as [[_ ->] | (_ & r & fr & Hout & ->)]; [left; reflexivity|].
  destruct Hout as [msg ? | error | b conn r w2 Hp Hurl -> Hs];
    [left; reflexivity | left; reflexivity |].
  cbn [snd Upsert.client Upsert.world].
  change (table_of (snd (client_end w2)) u) with (table_of w2 u).
  destruct (store_outcome_table _ _ _ _ _ u Hs) as [H | [-> H]];
    [left; exact H|].
  right. exists b. split; [exact Hp|]. split; [reflexivity | exact H].
Qed.

(** The upsert handler changes a table only when it answers [200]: with any
    other answer every store is exactly as it was. *)
Theorem Upsert_writes_only_on_success cfg req w :
  stores (snd (Upsert.handler cfg req w)) = stores w
  \/ exists resp,
       fst (Upsert.handler cfg req w) = Ok resp /\ status resp = 200.
Proof.
  destruct (Upsert_handler_outcome cfg req w)
    as [[_ ->] | (_ & r & fr & Hout & ->)]; [left; reflexivity|].
  destruct Hout as [msg ? | error | b conn r w2 Hp Hurl -> Hs];
    [left; reflexivity | left; reflexivity |].
  cbn [fst snd Upsert.client Upsert.world].
  change (stores (snd (client_end w2))) with (stores w2).
  destruct (store_outcome_stores _ _ _ _ _ Hs)
    as [H | (resp & t' & -> & Hst & _)]; [left; exact H|].
  right. exists resp. split; [reflexivity | exact Hst].
Qed.

(** Environment isolation: a request only ever touches the table behind the
    connection string its own [env] resolves to; every other table is as it
    was, whatever the outcome. *)
Theorem Upsert_environment_isolation cfg b w u :
  u <> connection_string (getDbUrl cfg (get_prop b "env")) ->
  table_of (snd (Upsert.handler cfg (post b) w)) u = table_of w u.
Proof.
  intros Hu.
  destruct (Upsert_handler_tables cfg (post b) w u)
    as [H | (b' & Hp & -> & _)]; [exact H|].
  injection Hp as <-. contradiction.
Qed.

Lemma Upsert_environment_isolation_witness :
  table_of (snd (Upsert.handler sample_cfg (post scenario_body_true)
                   seeded_world)) "postgres://production/apps"
  = table_of seeded_world "postgres://production/apps".
Proof.
  apply (Upsert_environment_isolation sample_cfg scenario_body_true
           seeded_world "postgres://production/apps").
  vm_compute. discriminate.
Defined.

(** Rows are never deleted and keys never rewritten: in every table, after
    any request, the key column starts with the keys it had, in order, and so
    does the creation-time column; at most one row has been added; and if
    the keys were pairwise distinct they still are. *)
Theorem Upsert_keeps_rows_and_keys cfg req w u :
  map app_id (table_of w u)
    `prefix_of` map app_id (table_of (snd (Upsert.handler cfg req w)) u)
  /\ map created_at (table_of w u)
       `prefix_of`
       map created_at (table_of (snd (Upsert.handler cfg req w)) u)
  /\ length (table_of (snd (Upsert.handler cfg req w)) u)
     <= S (length (table_of w u))
  /\ (NoDup (map app_id (table_of w u)) ->
      NoDup (map app_id (table_of (snd (Upsert.handler cfg req w)) u))).
Proof.
  destruct (Upsert_handler_tables cfg req w u)
    as [-> | (b & _ & _ & [[Hk Hc] | (row & Hrow & Hfresh)])].
  - repeat split; auto. 
  - rewrite Hk, Hc. repeat split; auto.
    rewrite <- (length_map app_id), Hk, length_map. auto.
  - rewrite Hrow, !map_app. repeat split.
    + apply prefix_app_r. reflexivity.
    + apply prefix_app_r. reflexivity.
    + rewrite length_app. simpl. lia.
    + intros Hnd. apply NoDup_app. split; [exact Hnd|]. split.
      * intros k Hk Hin. simpl in Hin.
        apply list_elem_of_singleton in Hin. subst k. contradiction.
      * simpl. apply NoDup_singleton.
Qed.

Lemma Upsert_keeps_rows_and_keys_witness :
  NoDup (map app_id
           (table_of (snd (Upsert.handler sample_cfg (post creation_body)
                             seeded_world)) staging)).
Proof.
  destruct (Upsert_keeps_rows_and_keys sample_cfg (post creation_body)
              seeded_world staging) as (_ & _ & _ & H).
  apply H. vm_compute.
  repeat (apply NoDup_cons_2;
          [rewrite list_elem_of_In; simpl; intuition discriminate|]).
  apply NoDup_nil_2.
Defined.

(** ** The order of client calls *)

Lemma hits_some key (t : list AppRecord) :
  filter (fun r => matches key r = true) t <> [] ->
  exists r, r ∈ t /\ app_id r = key.
Proof.
  destruct (filter _ t) as [|r rest] eqn:F; [congruence|]. intros _.
  assert (r ∈ filter (fun r => matches key r = true) t) as H
    by (rewrite F; left).
  apply list_elem_of_filter in H as [Hm Hin].
  exists r. split; [exact Hin | apply matches_spec, Hm].
Qed.

Lemma hits_none key (t : list AppRecord) :
  filter (fun r => matches key r = true) t = [] ->
  forall r, r ∈ t -> app_id r <> key.
Proof.
  intros H r Hin Hk.
  eapply (filter_nil_not_elem_of _ _ _ H); [|exact Hin].
  apply matches_spec. exact Hk.
Qed.

(** The client calls of one request, under any fault script: none at all, or
    one session on a configured connection string -- connect, then at most
    the existence check bound to the request's [appId], then at most one
    write, then end.  The write is the update statement of the request's
    descriptor with its values, or the insert statement with
    [insertValues]. *)
Theorem Upsert_session_shape cfg req w :
  exists tr,
    trace (snd (Upsert.handler cfg req w)) = trace w ++ tr
    /\ (tr = []
        \/ exists b conn,
             payload req = Some b
             /\ conn = connection_string (getDbUrl cfg (get_prop b "env"))
             /\ configured cfg conn
             /\ (tr = [EvConnect conn; EvEnd]
                 \/ tr = [EvConnect conn;
                          EvQuery SelectAppId [get_prop b "appId"]; EvEnd]
                 \/ tr = [EvConnect conn;
                          EvQuery SelectAppId [get_prop b "appId"];
                          EvQuery (Upsert.updateQuery (Upsert.fields b))
                            (Upsert.update_values (Upsert.fields b));
                          EvEnd]
                 \/ tr = [EvConnect conn;
                          EvQuery SelectAppId [get_prop b "appId"];
                          EvQuery Insert
                            (Upsert.insertValues (Upsert.fields b));
                          EvEnd])).
Proof.
  destruct (Upsert_handler_outcome cfg req w)
    as [[_ ->] | (_ & r & fr & Hout & ->)];
    [exists []; rewrite app_nil_r; auto|].
  destruct Hout as [msg ? | error | b conn r w2 Hp Hurl -> Hs];
    [exists []; rewrite app_nil_r; auto ..|].
  cbn [snd Upsert.client Upsert.world].
  change (trace (snd (client_end w2))) with (trace w2 ++ [EvEnd]).
  pose proof (getDbUrl_configured _ _ Hurl) as Hconf.
  change (Upsert.appId (Upsert.fields b)) with (get_prop b "appId") in Hs.
  destruct Hs as [ msg w2 _ Ht | msg w2 _ Ht | w2 _ _ _ Ht
                 | msg w2 _ _ Ht | now w2 _ _ _ Ht | w2 _ _ Ht
                 | msg w2 _ _ Ht | now w2 _ _ Ht ];
    rewrite Ht, <- app_assoc; eexists; (split; [reflexivity|]); right;
    exists b, (connection_string (getDbUrl cfg (get_prop b "env")));
    (split; [exact Hp|]); (split; [reflexivity|]);
    (split; [exact Hconf|]); simpl; auto.
Qed.

(** ** Runs without a store fault *)

Lemma client_query_no_fault conn q ps w :
  faults w = [] ->
  client_query conn q ps w
  = match exec q ps (clock w) (table_of w conn) with
    | inl msg =>
        (Throw msg, {| stores := stores w; clock := clock w; faults := [];
                       trace := trace w ++ [EvQuery q ps] |})
    | inr (res, t') =>
        (Ok res, {| stores := match q with
                              | SelectAppId => stores w
                              | _ => <[conn := t']> (stores w)
                              end;
                    clock := S (clock w); faults := [];
                    trace := trace w ++ [EvQuery q ps] |})
    end.
Proof.
  intros Hf. destruct w as [st ck fl tr]. simpl in Hf. subst fl.
  unfold client_query, bind, record_call, io. simpl.
  unfold table_of. simpl.
  destruct (exec q ps ck (default [] (st !! conn))) as [msg|[res t']];
    reflexivity.
Qed.

(** The update branch, end to end. *)
Lemma Upsert_update_run cfg b w r :
  b <> JNull -> b <> JUndefined ->
  truthy (get_prop b "env") = true ->
  truthy (get_prop b "appId") = true ->
  truthy (getDbUrl cfg (get_prop b "env")) = true ->
  faults w = [] ->
  r ∈ table_of w (connection_string (getDbUrl cfg (get_prop b "env"))) ->
  app_id r = get_prop b "appId" ->
  present (Upsert.fields b) <> [] ->
  Upsert.handler cfg (post b) w
  = (Ok {| status := 200;
           body := BUpdated (get_prop b "env") (get_prop b "appId")
                     (Some (S (clock w))) |},
     {| stores :=
          <[connection_string (getDbUrl cfg (get_prop b "env")) :=
              touch (get_prop b "appId")
                (updated_row (Upsert.fields b) (S (clock w)))
                (table_of w
                   (connection_string (getDbUrl cfg (get_prop b "env"))))]>
            (stores w);
        clock := S (S (clock w));
        faults := [];
        trace :=
          trace w ++
          [ EvConnect (connection_string (getDbUrl cfg (get_prop b "env")));
            EvQuery SelectAppId [get_prop b "appId"];
            EvQuery (Upsert.updateQuery (Upsert.fields b))
              (Upsert.update_values (Upsert.fields b));
            EvEnd ] |}).
Proof.
  intros Hnull Hundef Henv Hid Hurl Hf Hin Hkey Hp.
  set (conn := connection_string _) in *.
  rewrite Upsert_handler_post. unfold try_finally, try_catch.
  rewrite Upsert_reaches_store by assumption.
  set (d := Upsert.fields b) in *.
  change (Upsert.appId d) with (get_prop b "appId").
  change (Upsert.env d) with (get_prop b "env").
  fold conn. rewrite (hits_exists _ _ r Hin Hkey).
  destruct (hits_cons _ _ r Hin Hkey) as (r0 & rest & Hhit & Hr0).
  unfold Upsert.update_branch. rewrite update_sets_length.
  destruct (present d) as [|o l] eqn:Hpd; [congruence|].
  change (S (length (o :: l)) =? 1) with false. cbv iota.
  unfold bind, Upsert.lift. cbv beta.
  cbn [Upsert.world Upsert.client].
  rewrite client_query_no_fault by reflexivity.
  cbn [clock]. rewrite exec_update_statement.
  change (Upsert.appId d) with (get_prop b "appId").
  change (table_of _ conn) with (table_of w conn).
  rewrite Hhit. cbn [rows map first_row ret].
  destruct (updated_row_keeps d (S (clock w)) r0) as (K1 & _ & K3).
  cbn [returned_row row_app_id row_updated_at]. rewrite K1, K3, Hr0.
  change (Upsert.env d) with (get_prop b "env").
  unfold Upsert.finally_block, Upsert.lift.
  cbn [Upsert.client Upsert.world]. rewrite client_end_run.
  cbn [stores clock faults trace]. rewrite <- !app_assoc.
  unfold Upsert.updateQuery. reflexivity.
Qed.

(** The creation branch, end to end. *)
Lemma Upsert_create_run cfg b w :
  b <> JNull -> b <> JUndefined ->
  truthy (get_prop b "env") = true ->
  truthy (get_prop b "appId") = true ->
  truthy (getDbUrl cfg (get_prop b "env")) = true ->
  faults w = [] ->
  (forall r,
     r ∈ table_of w (connection_string (getDbUrl cfg (get_prop b "env"))) ->
     app_id r <> get_prop b "appId") ->
  truthy (get_prop b "appName") = true ->
  truthy (get_prop b "appVersion") = true ->
  truthy (get_prop b "appCode") = true ->
  truthy (get_prop b "hasTriggers") = true ->
  truthy (get_prop b "hasActions") = true ->
  Upsert.handler cfg (post b) w
  = (Ok {| status := 200;
           body := BCreated (get_prop b "env") (get_prop b "appId")
                     (Some (S (clock w))) |},
     {| stores :=
          <[connection_string (getDbUrl cfg (get_prop b "env")) :=
              table_of w
                (connection_string (getDbUrl cfg (get_prop b "env")))
              ++ [created_row (Upsert.fields b) (S (clock w))]]>
            (stores w);
        clock := S (S (clock w));
        faults := [];
        trace :=
          trace w ++
          [ EvConnect (connection_string (getDbUrl cfg (get_prop b "env")));
            EvQuery SelectAppId [get_prop b "appId"];
            EvQuery Insert (Upsert.insertValues (Upsert.fields b));
            EvEnd ] |}).
Proof.
  intros Hnull Hundef Henv Hid Hurl Hf Hfree Hn Hv Hc Ht Ha.
  set (conn := connection_string _) in *.
  rewrite Upsert_handler_post. unfold try_finally, try_catch.
  rewrite Upsert_reaches_store by assumption.
  set (d := Upsert.fields b) in *.
  change (Upsert.appId d) with (get_prop b "appId").
  change (Upsert.env d) with (get_prop b "env").
  fold conn. rewrite (hits_absent _ _ Hfree).
  change (0 <? length []) with false. cbv iota.
  unfold Upsert.insert_branch.
  change (Upsert.appName d) with (get_prop b "appName").
  change (Upsert.appVersion d) with (get_prop b "appVersion").
  change (Upsert.appCode d) with (get_prop b "appCode").
  change (Upsert.hasTriggers d) with (get_prop b "hasTriggers").
  change (Upsert.hasActions d) with (get_prop b "hasActions").
  rewrite Hn, Hv, Hc, Ht, Ha. cbn [negb orb]. cbv iota.
  unfold bind, Upsert.lift. cbv beta.
  cbn [Upsert.world Upsert.client].
  rewrite client_query_no_fault by reflexivity.
  cbn [clock]. rewrite exec_insert.
  change (table_of _ conn) with (table_of w conn).
  change (Upsert.appId d) with (get_prop b "appId").
  rewrite (existsb_matches_absent _ _ Hfree).
  cbn [rows first_row ret row_app_id row_created_at].
  change (Upsert.env d) with (get_prop b "env").
  unfold Upsert.finally_block, Upsert.lift.
  cbn [Upsert.client Upsert.world]. rewrite client_end_run.
  cbn [stores clock faults trace]. rewrite <- !app_assoc. reflexivity.
Qed.

(** ** Columns of an updated row *)

Lemma get_set_same c v r : get_column c (set_column c v r) = v.
Proof. destruct c; reflexivity. Qed.

Lemma get_set_other c c' v r :
  c <> c' -> get_column c (set_column c' v r) = get_column c r.
Proof. destruct c, c'; intros H; try reflexivity; congruence. Qed.

Lemma set_get_id c r : set_column c (get_column c r) r = r.
Proof. destruct r, c; reflexivity. Qed.

Lemma apply_setters_other c l r :
  c ∉ map opt_column l ->
  get_column c (apply_all (map setter l) r) = get_column c r.
Proof.
  revert r. induction l as [|o l IH]; intros r Hc; [reflexivity|].
  change (apply_all (map setter (o :: l)) r)
    with (apply_all (map setter l) (setter o r)).
  rewrite IH by (intros H; apply Hc; right; exact H).
  unfold setter. apply get_set_other.
  intros ->. apply Hc. left.
Qed.

Lemma apply_setters_get l r o :
  NoDup (map opt_column l) -> o ∈ l ->
  get_column (opt_column o) (apply_all (map setter l) r) = opt_bound o.
Proof.
  revert r. induction l as [|a l IH]; intros r Hnd Hin; [inversion Hin|].
  change (apply_all (map setter (a :: l)) r)
    with (apply_all (map setter l) (setter a r)).
  simpl in Hnd. apply NoDup_cons in Hnd as [Hfresh Hnd].
  apply elem_of_cons in Hin as [-> | Hin].
  - rewrite apply_setters_other by exact Hfresh.
    unfold setter. apply get_set_same.
  - apply IH; assumption.
Qed.

Lemma present_columns_distinct d : NoDup (map opt_column (present d)).
Proof.
  unfold present.
  assert (NoDup (map opt_column (optional_fields d))) as H.
  { simpl.
    repeat (apply NoDup_cons_2;
            [rewrite list_elem_of_In; simpl; intuition discriminate|]).
    apply NoDup_nil_2. }
  revert H. generalize (optional_fields d). intros l.
  induction l as [|o l IH]; intros Hnd; [apply NoDup_nil_2|].
  simpl in Hnd. apply NoDup_cons in Hnd as [Hfresh Hnd]. simpl.
  destruct (is_present o); [|apply IH, Hnd].
  simpl. apply NoDup_cons_2; [|apply IH, Hnd].
  intros Hin. apply Hfresh.
  apply list_elem_of_In, in_map_iff in Hin as (o' & Ho' & Hin).
  apply filter_In in Hin as [Hin _].
  apply list_elem_of_In, in_map_iff. exists o'. split; assumption.
Qed.

(** ** Update, creation and their composition *)

(** Partial update in general (no store fault): when a row with the
    request's [appId] exists and the body carries at least one optional
    field, the handler answers [200 updated] and the table is the old one
    with [updated_row] applied to the rows of that key.  In such a row every
    field the body carries reads back as the value that was bound for it,
    every column whose field the body omits is as it was, key and creation
    time are kept, and [updated_at] is the statement's clock reading. *)
Theorem Upsert_update_round_trip cfg b w r :
  b <> JNull -> b <> JUndefined ->
  truthy (get_prop b "env") = true ->
  truthy (get_prop b "appId") = true ->
  truthy (getDbUrl cfg (get_prop b "env")) = true ->
  faults w = [] ->
  r ∈ table_of w (connection_string (getDbUrl cfg (get_prop b "env"))) ->
  app_id r = get_prop b "appId" ->
  present (Upsert.fields b) <> [] ->
  fst (Upsert.handler cfg (post b) w)
  = Ok {| status := 200;
          body := BUpdated (get_prop b "env") (get_prop b "appId")
                    (Some (S (clock w))) |}
  /\ table_of (snd (Upsert.handler cfg (post b) w))
       (connection_string (getDbUrl cfg (get_prop b "env")))
     = touch (get_prop b "appId")
         (updated_row (Upsert.fields b) (S (clock w)))
         (table_of w (connection_string (getDbUrl cfg (get_prop b "env"))))
  /\ forall r0,
       (forall o, o ∈ present (Upsert.fields b) ->
                  get_column (opt_column o)
                    (updated_row (Upsert.fields b) (S (clock w)) r0)
                  = opt_bound o)
       /\ (forall c, c ∉ map opt_column (present (Upsert.fields b)) ->
                     get_column c
                       (updated_row (Upsert.fields b) (S (clock w)) r0)
                     = get_column c r0)
       /\ app_id (updated_row (Upsert.fields b) (S (clock w)) r0) = app_id r0
       /\ created_at (updated_row (Upsert.fields b) (S (clock w)) r0)
          = created_at r0
       /\ updated_at (updated_row (Upsert.fields b) (S (clock w)) r0)
          = S (clock w).
Proof.
  intros Hnull Hundef Henv Hid Hurl Hf Hin Hkey Hp.
  rewrite (Upsert_update_run cfg b w r) by assumption.
  split; [reflexivity|]. split.
  { cbn [snd]. erewrite table_of_insert by reflexivity.
    destruct (decide (_ = _)); [reflexivity | congruence]. }
  intros r0.
  destruct (updated_row_keeps (Upsert.fields b) (S (clock w)) r0)
    as (K1 & K2 & K3).
  split; [|split; [|repeat split; assumption]].
  - intros o Ho. unfold updated_row.
    change (get_column (opt_column o) (set_updated_at ?n ?x))
      with (get_column (opt_column o) x).
    apply apply_setters_get; [apply present_columns_distinct | exact Ho].
  - intros c Hc. unfold updated_row.
    change (get_column c (set_updated_at ?n ?x)) with (get_column c x).
    apply apply_setters_other, Hc.
Qed.

Lemma Upsert_update_round_trip_witness :
  (app_version <$> head (table_of
                           (snd (Upsert.handler sample_cfg (post version_body)
                                   seeded_world)) staging)
   = Some (JStr "1.1"))
  /\ (app_name <$> head (table_of
                           (snd (Upsert.handler sample_cfg (post version_body)
                                   seeded_world)) staging)
      = Some (JStr "svc")).
Proof.
  destruct (Upsert_update_round_trip sample_cfg version_body seeded_world
              svc_record) as (_ & T & _);
    try reflexivity; try discriminate.
  - vm_compute. left.
  - change (connection_string _) with staging in T. rewrite T.
    split; vm_compute; reflexivity.
Defined.

(** Creation in general (no store fault, string keys): when no row has the
    request's [appId], the five creation fields are truthy and [tags] is
    truthy, the handler answers [200 created] with the statement's clock
    reading and adds one row at the end of the table.  The row holds the five
    fields and the key as given; [git_sha] is the given [gitSha], or [null]
    when it is absent or [null]; [tags] is the JSON text of the given
    [tags]; both timestamps are the statement's clock reading. *)
Theorem Upsert_creates_row cfg b w :
  b <> JNull -> b <> JUndefined ->
  truthy (get_prop b "env") = true ->
  truthy (get_prop b "appId") = true ->
  (exists s, get_prop b "appId" = JStr s) ->
  truthy (getDbUrl cfg (get_prop b "env")) = true ->
  faults w = [] ->
  string_keyed
    (table_of w (connection_string (getDbUrl cfg (get_prop b "env")))) ->
  (forall r,
     r ∈ table_of w (connection_string (getDbUrl cfg (get_prop b "env"))) ->
     app_id r <> get_prop b "appId") ->
  truthy (get_prop b "appName") = true ->
  truthy (get_prop b "appVersion") = true ->
  truthy (get_prop b "appCode") = true ->
  truthy (get_prop b "hasTriggers") = true ->
  truthy (get_prop b "hasActions") = true ->
  truthy (get_prop b "tags") = true ->
  fst (Upsert.handler cfg (post b) w)
  = Ok {| status := 200;
          body := BCreated (get_prop b "env") (get_prop b "appId")
                    (Some (S (clock w))) |}
  /\ table_of (snd (Upsert.handler cfg (post b) w))
       (connection_string (getDbUrl cfg (get_prop b "env")))
     = table_of w (connection_string (getDbUrl cfg (get_prop b "env")))
       ++ [{| app_name := get_prop b "appName";
              app_id := get_prop b "appId";
              app_version := get_prop b "appVersion";
              app_code := get_prop b "appCode";
              has_triggers := get_prop b "hasTriggers";
              has_actions := get_prop b "hasActions";
              git_sha := nullish_null (get_prop b "gitSha");
              tags := JStr (JSON_stringify (get_prop b "tags"));
              created_at := S (clock w);
              updated_at := S (clock w) |}].
Proof.
  intros Hnull Hundef Henv Hid _ Hurl Hf _ Hfree Hn Hv Hc Ht Ha Htags.
  rewrite Upsert_create_run by assumption.
  split; [reflexivity|].
  cbn [snd]. erewrite table_of_insert by reflexivity.
  destruct (decide (_ = _)); [|congruence].
  unfold created_row.
  change (Upsert.tags (Upsert.fields b)) with (get_prop b "tags").
  rewrite Htags. reflexivity.
Qed.

Lemma Upsert_creates_row_witness :
  fst (Upsert.handler sample_cfg (post tagged_body) empty_world)
  = Ok {| status := 200;
          body := BCreated (JStr "staging") (JStr "a1") (Some 1) |}
  /\ tags <$> last (table_of (snd (Upsert.handler sample_cfg
                                     (post tagged_body) empty_world))
                      staging)
     = Some (JStr (JSON_stringify (JArr [JStr "beta"]))).
Proof.
  destruct (Upsert_creates_row sample_cfg tagged_body empty_world)
    as (R & T);
    [ discriminate | discriminate | reflexivity | reflexivity
    | eexists; reflexivity | reflexivity | reflexivity | | | reflexivity
    | reflexivity | reflexivity | reflexivity | reflexivity | reflexivity | ].
  - intros r Hr. vm_compute in Hr. inversion Hr.
  - intros r Hr. vm_compute in Hr. inversion Hr.
  - split; [exact R|].
    change (connection_string _) with staging in T.
    rewrite T, last_snoc. reflexivity.
Defined.



Lemma truthy_defined v : truthy v = true -> defined v = true.
Proof. destruct v; simpl; congruence. Qed.

Lemma apply_setters_id l r :
  (forall o, o ∈ l -> setter o r = r) -> apply_all (map setter l) r = r.
Proof.
  induction l as [|o l IH]; intros H; [reflexivity|].
  change (apply_all (map setter (o :: l)) r)
    with (apply_all (map setter l) (setter o r)).
  rewrite (H o) by left. apply IH. intros o' Ho'. apply H. right. exact Ho'.
Qed.

(** Updating a freshly created row with the descriptor that created it only
    moves [updated_at], provided [tags] is truthy or absent. *)
Lemma updated_created_row d n m :
  truthy (Upsert.tags d) = true \/ Upsert.tags d = JUndefined ->
  updated_row d m (created_row d n) = set_updated_at m (created_row d n).
Proof.
  intros Htags. unfold updated_row. f_equal.
  apply apply_setters_id. intros o Ho.
  unfold present in Ho. apply list_elem_of_In, filter_In in Ho as [Ho Hpres].
  unfold optional_fields in Ho. simpl in Ho.
  unfold is_present in Hpres.
  destruct Ho as [<-|[<-|[<-|[<-|[<-|[<-|[<-|[]]]]]]]];
    unfold setter, created_row; simpl in *; try reflexivity.
  - destruct (Upsert.gitSha d); try discriminate; reflexivity.
  - destruct Htags as [-> | Hu]; [reflexivity|].
    rewrite Hu in Hpres. discriminate.
Qed.

(** Publishing the same full descriptor twice in a row (no store fault,
    string keys, no row for its [appId] at first, the five creation fields
    and [tags] truthy): the first call answers [200 created], the second
    [200 updated], and the table ends as the original one followed by the
    created row with only its [updated_at] moved to the second statement's
    clock reading. *)
Theorem Upsert_create_then_update cfg b w :
  b <> JNull -> b <> JUndefined ->
  truthy (get_prop b "env") = true ->
  truthy (get_prop b "appId") = true ->
  (exists s, get_prop b "appId" = JStr s) ->
  truthy (getDbUrl cfg (get_prop b "env")) = true ->
  faults w = [] ->
  string_keyed
    (table_of w (connection_string (getDbUrl cfg (get_prop b "env")))) ->
  (forall r,
     r ∈ table_of w (connection_string (getDbUrl cfg (get_prop b "env"))) ->
     app_id r <> get_prop b "appId") ->
  truthy (get_prop b "appName") = true ->
  truthy (get_prop b "appVersion") = true ->
  truthy (get_prop b "appCode") = true ->
  truthy (get_prop b "hasTriggers") = true ->
  truthy (get_prop b "hasActions") = true ->
  truthy (get_prop b "tags") = true ->
  fst (Upsert.handler cfg (post b) w)
  = Ok {| status := 200;
          body := BCreated (get_prop b "env") (get_prop b "appId")
                    (Some (S (clock w))) |}
  /\ fst (Upsert.handler cfg (post b) (snd (Upsert.handler cfg (post b) w)))
     = Ok {| status := 200;
             body := BUpdated (get_prop b "env") (get_prop b "appId")
                       (Some (S (S (S (clock w))))) |}
  /\ table_of
       (snd (Upsert.handler cfg (post b)
               (snd (Upsert.handler cfg (post b) w))))
       (connection_string (getDbUrl cfg (get_prop b "env")))
     = table_of w (connection_string (getDbUrl cfg (get_prop b "env")))
       ++ [{| app_name := get_prop b "appName";
              app_id := get_prop b "appId";
              app_version := get_prop b "appVersion";
              app_code := get_prop b "appCode";
              has_triggers := get_prop b "hasTriggers";
              has_actions := get_prop b "hasActions";
              git_sha := nullish_null (get_prop b "gitSha");
              tags := JStr (JSON_stringify (get_prop b "tags"));
              created_at := S (clock w);
              updated_at := S (S (S (clock w))) |}].
Proof.
  intros Hnull Hundef Henv Hid _ Hurl Hf _ Hfree Hn Hv Hc Ht Ha Htags.
  set (conn := connection_string _) in *.
  rewrite (Upsert_create_run cfg b w) by assumption. fold conn.
  split; [reflexivity|]. cbn [snd].
  set (row := created_row (Upsert.fields b) (S (clock w))).
  set (w1 := Build_World _ _ _ _).
  assert (table_of w1 conn = table_of w conn ++ [row]) as Ht1.
  { erewrite table_of_insert by reflexivity.
    destruct (decide (conn = conn)); [reflexivity | congruence]. }
  assert (present (Upsert.fields b) <> []) as Hp.
  { unfold present, optional_fields, is_present.
    cbn [List.filter opt_value Upsert.appName Upsert.fields].
    rewrite (truthy_defined _ Hn). discriminate. }
  rewrite (Upsert_update_run cfg b w1 row); try assumption; try reflexivity.
  2:{ fold conn. rewrite Ht1. apply elem_of_app. right. left. }
  fold conn. split; [reflexivity|]. cbn [snd].
  erewrite table_of_insert by reflexivity.
  destruct (decide (conn = conn)); [|congruence].
  rewrite Ht1. unfold touch. rewrite map_app.
  fold (touch (get_prop b "appId")
          (updated_row (Upsert.fields b) (S (clock w1))) (table_of w conn)).
  rewrite (touch_no_match _ _ _ Hfree). f_equal. cbn [map].
  assert (matches (get_prop b "appId") row = true) as ->
    by (apply matches_spec; reflexivity).
  unfold row. rewrite updated_created_row by (left; exact Htags).
  unfold created_row, set_updated_at. cbn.
  rewrite Htags. reflexivity.
Qed.

Lemma Upsert_create_then_update_witness :
  table_of
    (snd (Upsert.handler sample_cfg (post tagged_body)
            (snd (Upsert.handler sample_cfg (post tagged_body)
                    empty_world)))) staging
  = [ {| app_name := JStr "svc"; app_id := JStr "a1";
         app_version := JStr "1.0"; app_code := JStr "code";
         has_triggers := JBool true; has_actions := JBool true;
         git_sha := JNull;
         tags := JStr (JSON_stringify (JArr [JStr "beta"]));
         created_at := 1; updated_at := 3 |} ].
Proof.
  destruct (Upsert_create_then_update sample_cfg tagged_body empty_world)
    as (_ & _ & T);
    [ discriminate | discriminate | reflexivity | reflexivity
    | eexists; reflexivity | reflexivity | reflexivity | | | reflexivity
    | reflexivity | reflexivity | reflexivity | reflexivity | reflexivity | ].
  - intros r Hr. vm_compute in Hr. inversion Hr.
  - intros r Hr. vm_compute in Hr. inversion Hr.
  - change (connection_string _) with staging in T. rewrite T.
    reflexivity.
Defined.

(** ** Bodies that cannot be read, databases that cannot be reached *)

(** A [POST /publish] whose body is not JSON is answered [500 Invalid JSON]
    by both handlers, and one whose body is the JSON [null] is answered [500]
    as well (destructuring it throws); neither makes a client call or changes
    the world. *)
Theorem unreadable_body_is_internal_error cfg req w :
  on_route req = true ->
  (payload req = None ->
   Upsert.handler cfg req w
   = (Ok {| status := 500; body := BFailure "Invalid JSON" |}, w)
   /\ Strict.handler cfg req w
      = (Ok {| status := 500; body := BFailure "Invalid JSON" |}, w))
  /\ (payload req = Some JNull ->
      exists reason,
        Upsert.handler cfg req w
        = (Ok {| status := 500; body := BFailure reason |}, w)
        /\ Strict.handler cfg req w
           = (Ok {| status := 500; body := BFailure reason |}, w)).
Proof.
  unfold on_route. intros Hroute.
  apply andb_prop in Hroute as [Hm Hu].
  unfold Upsert.handler, Strict.handler. rewrite Hm, Hu.
  cbn [negb orb]. cbv iota.
  unfold try_finally, try_catch, Upsert.try_block, Strict.try_block, bind,
    readBody.
  split; intros ->.
  - split; reflexivity.
  - exists destructure_null. split; reflexivity.
Qed.

Lemma unreadable_body_witness :
  Upsert.handler sample_cfg
    {| method := "POST"; url := "/publish"; payload := None |} seeded_world
  = (Ok {| status := 500; body := BFailure "Invalid JSON" |}, seeded_world).
Proof.
  destruct (unreadable_body_is_internal_error sample_cfg
              {| method := "POST"; url := "/publish"; payload := None |}
              seeded_world) as [H _]; [reflexivity|].
  destruct H as [U _]; [reflexivity | exact U].
Defined.

(** When the database refuses the connection with message [msg], a request
    that passed the checks is answered [500] with [msg], or with
    [Internal server error] when [msg] is empty; no statement is sent and no
    store changes.  The upsert handler still ends the client it created; the
    strict handler makes no further call. *)
Theorem connect_failure_is_internal_error cfg b w msg rest :
  b <> JNull -> b <> JUndefined ->
  truthy (get_prop b "env") = true ->
  truthy (get_prop b "appId") = true ->
  truthy (getDbUrl cfg (get_prop b "env")) = true ->
  faults w = Some msg :: rest ->
  Upsert.handler cfg (post b) w
  = (Ok {| status := 500;
           body := BFailure (if String.eqb msg EmptyString
                             then "Internal server error" else msg) |},
     {| stores := stores w; clock := clock w; faults := rest;
        trace :=
          trace w ++
          [ EvConnect (connection_string (getDbUrl cfg (get_prop b "env")));
            EvEnd ] |})
  /\ (truthy (get_prop b "appCode") = true ->
      Strict.handler cfg (post b) w
      = (Ok {| status := 500;
               body := BFailure (if String.eqb msg EmptyString
                                 then "Internal server error" else msg) |},
         {| stores := stores w; clock := clock w; faults := rest;
            trace :=
              trace w ++
              [ EvConnect
                  (connection_string (getDbUrl cfg (get_prop b "env"))) ]
         |})).
Proof.
  intros Hnull Hundef Henv Hid Hurl Hf.
  destruct w as [st ck fl tr]. simpl in Hf. subst fl.
  split; [|intros Hcode].
  - rewrite Upsert_handler_post.
    unfold try_finally, try_catch, Upsert.try_block, bind, readBody.
    change (payload (post b)) with (Some b). unfold ret at 1.
    cbv beta iota.
    rewrite Upsert_destructure_ok by assumption. unfold ret at 1.
    cbv beta iota.
    change (Upsert.env (Upsert.fields b)) with (get_prop b "env").
    change (Upsert.appId (Upsert.fields b)) with (get_prop b "appId").
    rewrite Henv, Hid, Hurl. cbn [negb orb]. cbv iota.
    unfold Upsert.assign_client, Upsert.lift, client_connect, bind,
      record_call, io, Upsert.catch_block, Upsert.finally_block,
      Upsert.lift, client_end, record_call, ret, internal_error,
      message_or_default.
    simpl. rewrite <- app_assoc. reflexivity.
  - rewrite Strict_handler_post.
    unfold try_catch, Strict.try_block, bind, readBody.
    change (payload (post b)) with (Some b). unfold ret at 1.
    cbv beta iota.
    rewrite Strict_destructure_ok by assumption. unfold ret at 1.
    cbv beta iota.
    change (Strict.env (Strict.fields b)) with (get_prop b "env").
    change (Strict.appId (Strict.fields b)) with (get_prop b "appId").
    change (Strict.appCode (Strict.fields b)) with (get_prop b "appCode").
    rewrite Henv, Hid, Hcode, Hurl. cbn [negb orb]. cbv iota.
    unfold client_connect, bind, record_call, io, Strict.catch_block, ret,
      internal_error, message_or_default.
    simpl. reflexivity.
Qed.

Lemma connect_failure_witness :
  fst (Upsert.handler sample_cfg (post code_body) refusing_world)
  = Ok {| status := 500; body := BFailure "Internal server error" |}
  /\ trace (snd (Upsert.handler sample_cfg (post code_body) refusing_world))
     = [EvConnect staging; EvEnd].
Proof.
  destruct (connect_failure_is_internal_error sample_cfg code_body
              refusing_world EmptyString []) as [U _];
    [ discriminate | discriminate | reflexivity | reflexivity | reflexivity
    | reflexivity | ].
  rewrite U. split; reflexivity.
Defined.

(** ** The strict handler under any fault script *)

Lemma Strict_try_block_outcome cfg req w r w' :
  Strict.try_block cfg req w = (r, w') ->
  (w' = w
   /\ ((exists e, r = Throw e) \/ (exists error, r = Ok (bad_request error))))
  \/ (exists b,
        payload req = Some b
        /\ truthy (getDbUrl cfg (get_prop b "env")) = true
        /\ strict_outcome (Strict.fields b)
             (connection_string (getDbUrl cfg (get_prop b "env"))) w r w').
Proof.
  unfold Strict.try_block, bind, readBody.
  destruct (payload req) as [b|] eqn:Hp;
    [|intros [= <- <-]; left; split; eauto].
  unfold ret at 1. cbv beta iota.
  destruct (Strict.destructure b w) as [[d|e] w0] eqn:D.
  2:{ unfold Strict.destructure in D.
      destruct b; inversion D; subst; intros [= <- <-]; left; split; eauto. }
  assert (w0 = w /\ d = Strict.fields b) as [-> ->].
  { unfold Strict.destructure in D.
    destruct b; inversion D; split; reflexivity. }
  clear D.
  destruct (_ || _); [intros [= <- <-]; left; split; eauto|].
  change (Strict.env (Strict.fields b)) with (get_prop b "env").
  destruct (truthy (getDbUrl cfg (get_prop b "env"))) eqn:Hurl;
    [|intros [= <- <-]; left; split; eauto].
  cbn [negb]. cbv iota.
  set (conn := connection_string _). set (d := Strict.fields b).
  intros H. right. exists b. split; [reflexivity|]. split; [exact Hurl|].
  fold conn d.
  destruct (client_connect conn w) as [[[]|e] w1] eqn:C;
    apply client_connect_cases in C as (Ht1 & Hs1 & _).
  2:{ injection H as <- <-. apply ST_connect_failed; assumption. }
  destruct (client_query _ _ _ w1) as [[res|e] w2] eqn:Q;
    apply client_query_cases in Q
      as (Ht2 & [(msg & Hr & Hs2) | (res' & t' & Hr & Hx & Hs2)]);
    try discriminate.
  2:{ injection H as <- <-. apply ST_query_failed; [congruence|].
      rewrite Ht2, Ht1, <- app_assoc. reflexivity. }
  injection Hr as <-. rewrite exec_strict in Hx. injection Hx as <- <-.
  rewrite (table_of_stores _ _ conn Hs1) in *. rewrite Hs1 in Hs2.
  rewrite client_end_run in H. cbn [rowCount rows] in H.
  destruct (filter _ (table_of w conn)) as [|r0 rest] eqn:F.
  - simpl in H. injection H as <- <-.
    eapply ST_not_found; [exact F | exact Hs2 |].
    simpl. rewrite Ht2, Ht1, <- !app_assoc. reflexivity.
  - simpl in H. injection H as <- <-.
    assert (app_id r0 = get_prop b "appId") as ->.
    { apply matches_spec.
      assert (r0 ∈ filter (fun r => matches (get_prop b "appId") r = true)
                     (table_of w conn)) as Hin by (rewrite F; left).
      apply list_elem_of_filter in Hin as [Hin _]. exact Hin. }
    eapply ST_updated;
      [intros E; discriminate (eq_trans (eq_sym E) F) | exact Hs2 |].
    simpl. rewrite Ht2, Ht1, <- !app_assoc. reflexivity.
Qed.

Lemma Strict_handler_outcome cfg req w :
  (on_route req = false /\ Strict.handler cfg req w = (Ok not_found, w))
  \/ (on_route req = true
      /\ ((exists resp,
             (status resp = 400 \/ status resp = 500)
             /\ (exists error, body resp = BFailure error)
             /\ Strict.handler cfg req w = (Ok resp, w))
          \/ (exists b r w2,
                payload req = Some b
                /\ strict_outcome (Strict.fields b)
                     (connection_string (getDbUrl cfg (get_prop b "env")))
                     w r w2
                /\ Strict.handler cfg req w
                   = (Ok match r with
                         | Ok resp => resp
                         | Throw e => internal_error e
                         end, w2)))).
Proof.
  unfold Strict.handler, on_route.
  destruct (String.eqb (method req) "POST");
    [|left; split; reflexivity].
  destruct (String.eqb (url req) "/publish");
    [|left; split; reflexivity].
  right. split; [reflexivity|]. cbn [negb orb]. cbv iota.
  unfold try_catch, Strict.catch_block.
  destruct (Strict.try_block cfg req w) as [r w'] eqn:T.
  apply Strict_try_block_outcome in T
    as [[-> [[e ->] | [error ->]]] | (b & Hp & _ & Hs)].
  - left. exists (internal_error e). split; [auto|]. split; [|reflexivity].
    eexists. reflexivity.
  - left. exists (bad_request error). split; [auto|]. split; [|reflexivity].
    eexists. reflexivity.
  - right. exists b, r, w'. split; [exact Hp|]. split; [exact Hs|].
    destruct r; reflexivity.
Qed.

Lemma touch_no_hits key F (t : list AppRecord) :
  filter (fun r => matches key r = true) t = [] -> touch key F t = t.
Proof. intros H. apply touch_no_match, hits_none, H. Qed.

(** The strict handler answers every request, in every world and under every
    fault script, with status [200], [400], [404] or [500]; off the route the
    answer is the plain [Not found], on it a JSON document; and unless the
    answer is [200] every table is as it was. *)
Theorem Strict_always_answers cfg req w :
  exists resp,
    fst (Strict.handler cfg req w) = Ok resp
    /\ (status resp = 200 \/ status resp = 400 \/ status resp = 404
        \/ status resp = 500)
    /\ (body resp = BText "Not found" <-> on_route req = false)
    /\ (status resp = 200
        \/ forall u, table_of (snd (Strict.handler cfg req w)) u
                     = table_of w u).
Proof.
  destruct (Strict_handler_outcome cfg req w)
    as [[Hroute ->]
       | (Hroute & [(resp & Hst & [error Hb] & ->)
                   | (b & r & w2 & _ & Hs & ->)])].
  - exists not_found. rewrite Hroute. repeat split; auto.
  - exists resp. rewrite Hroute, Hb.
    split; [reflexivity|]. split; [tauto|].
    split; [split; discriminate | right; reflexivity].
  - eexists. split; [reflexivity|]. rewrite Hroute. cbn [snd].
    destruct Hs as [ msg w2 Hs _ | msg w2 Hs _ | now w2 Hh Hs _
                   | now w2 Hh Hs _ ];
      (split; [simpl; auto|]); (split; [split; discriminate|]).
    + right. intros u. apply table_of_stores, Hs.
    + right. intros u. apply table_of_stores, Hs.
    + right. intros u. erewrite table_of_insert by exact Hs.
      rewrite (touch_no_hits _ _ _ Hh).
      destruct (decide (_ = u)) as [<-|]; reflexivity.
    + left. reflexivity.
Qed.

Lemma Forall2_diag {A} (R : A -> A -> Prop) (l : list A) :
  (forall x, R x x) -> Forall2 R l l.
Proof. intros HR. induction l; constructor; auto. Qed.

Lemma touch_Forall2 key F (R : AppRecord -> AppRecord -> Prop) t :
  (forall r, R r r) -> (forall r, R r (F r)) ->
  Forall2 R t (touch key F t).
Proof.
  intros Hrefl HF. unfold touch.
  induction t as [|r t IH]; simpl; constructor; [|exact IH].
  destruct (matches key r); auto.
Qed.

(** The strict handler never adds, removes or reorders rows, and never
    changes a column other than [app_code] and [updated_at]: after any
    request, under any fault script, every table matches the table before
    row by row, each row being as it was or as it was with a new [app_code]
    and [updated_at]. *)
Theorem Strict_changes_only_code_and_time cfg req w u :
  Forall2 (fun r r' => r' = r \/ exists c now, r' = with_app_code c now r)
    (table_of w u) (table_of (snd (Strict.handler cfg req w)) u)
  /\ length (table_of (snd (Strict.handler cfg req w)) u)
     = length (table_of w u).
Proof.
  assert (Forall2
            (fun r r' => r' = r \/ exists c now, r' = with_app_code c now r)
            (table_of w u) (table_of (snd (Strict.handler cfg req w)) u))
    as H.
  { destruct (Strict_handler_outcome cfg req w)
      as [[_ ->] | (_ & [(resp & _ & _ & ->) | (b & r & w2 & _ & Hs & ->)])];
      try (apply Forall2_diag; auto).
    cbn [snd].
    destruct Hs as [ msg w2 Hs _ | msg w2 Hs _ | now w2 _ Hs _
                   | now w2 _ Hs _ ];
      try (rewrite (table_of_stores _ _ u Hs); apply Forall2_diag; auto);
      rewrite (table_of_insert w2 _ _ u _ Hs);
      (destruct (decide (_ = u)) as [<-|];
       [apply touch_Forall2; eauto | apply Forall2_diag; auto]). }
  split; [exact H|]. symmetry. eapply Forall2_length, H.
Qed.

(** The strict handler on an existing row (no store fault): the answer is
    [200] with the request's [appId] and the statement's clock reading, and
    afterwards every row of the table with that key holds the request's
    [appCode] and that clock reading as [updated_at]. *)
Theorem Strict_update_round_trip cfg b w r :
  b <> JNull -> b <> JUndefined ->
  truthy (get_prop b "env") = true ->
  truthy (get_prop b "appId") = true ->
  truthy (get_prop b "appCode") = true ->
  truthy (getDbUrl cfg (get_prop b "env")) = true ->
  faults w = [] ->
  r ∈ table_of w (connection_string (getDbUrl cfg (get_prop b "env"))) ->
  app_id r = get_prop b "appId" ->
  fst (Strict.handler cfg (post b) w)
  = Ok {| status := 200;
          body := BStrictUpdated (get_prop b "env") (get_prop b "appId")
                    (Some (clock w)) |}
  /\ forall row,
       row ∈ table_of (snd (Strict.handler cfg (post b) w))
               (connection_string (getDbUrl cfg (get_prop b "env"))) ->
       app_id row = get_prop b "appId" ->
       app_code row = get_prop b "appCode" /\ updated_at row = clock w.
Proof.
  intros Hnull Hundef Henv Hid Hcode Hurl Hf Hin Hkey.
  rewrite Strict_run by assumption.
  destruct (hits_cons _ _ r Hin Hkey) as (r0 & rest & Hhit & Hr0).
  rewrite Hhit, Hr0.
  split; [reflexivity|]. cbn [snd].
  intros row Hrow Hk.
  erewrite table_of_insert in Hrow by reflexivity.
  destruct (decide (_ = _)); [|congruence].
  unfold touch in Hrow.
  apply list_elem_of_In, in_map_iff in Hrow as (r1 & <- & _).
  destruct (matches (get_prop b "appId") r1) eqn:M; [split; reflexivity|].
  apply matches_false in M. contradiction.
Qed.

Lemma Strict_update_round_trip_witness :
  fst (Strict.handler sample_cfg (post code_body) seeded_world)
  = Ok {| status := 200;
          body := BStrictUpdated (JStr "staging") (JStr "a1") (Some 10) |}.
Proof.
  destruct (Strict_update_round_trip sample_cfg code_body seeded_world
              svc_record) as [R _];
    [ discriminate | discriminate | reflexivity | reflexivity | reflexivity
    | reflexivity | reflexivity | vm_compute; left | reflexivity | exact R ].
Defined.

Lemma Upsert_releases_witness :
  exists tr,
    trace (snd (Upsert.handler sample_cfg (post code_body) failing_world))
    = trace failing_world ++ tr
    /\ releases tr = acquires tr /\ acquires tr <= 1.
Proof.
  apply (Upsert_releases_what_it_acquires sample_cfg (post code_body)
           failing_world
           (fst (Upsert.handler sample_cfg (post code_body) failing_world))
           (snd (Upsert.handler sample_cfg (post code_body) failing_world))).
  apply surjective_pairing.
Defined.

(** ** Success and the stored row *)

Lemma touch_elem key F (t : list AppRecord) r :
  r ∈ t -> matches key r = true -> F r ∈ touch key F t.
Proof.
  intros Hin Hm. unfold touch.
  apply list_elem_of_In, in_map_iff. exists r.
  rewrite Hm. split; [reflexivity | apply list_elem_of_In, Hin].
Qed.

(** With string keys (the request's [appId] a string, the table's keys
    strings): whenever the upsert handler answers [200], under any fault
    script, the table behind the request's connection string afterwards holds
    a row with the request's [appId], and the timestamp in the answer is that
    row's [updated_at] (for [updated]) or [created_at] (for [created]). *)
Theorem Upsert_success_means_stored cfg b w resp :
  (exists s, get_prop b "appId" = JStr s) ->
  string_keyed
    (table_of w (connection_string (getDbUrl cfg (get_prop b "env")))) ->
  fst (Upsert.handler cfg (post b) w) = Ok resp ->
  status resp = 200 ->
  exists row,
    row ∈ table_of (snd (Upsert.handler cfg (post b) w))
            (connection_string (getDbUrl cfg (get_prop b "env")))
    /\ app_id row = get_prop b "appId"
    /\ (body resp = BUpdated (get_prop b "env") (get_prop b "appId")
                      (Some (updated_at row))
        \/ body resp = BCreated (get_prop b "env") (get_prop b "appId")
                         (Some (created_at row))).
Proof.
  intros _ _.
  destruct (Upsert_handler_outcome cfg (post b) w)
    as [[Hroute _] | (_ & r & fr & Hout & ->)]; [discriminate Hroute|].
  cbn [fst snd].
  destruct Hout as [msg ? | error | b' conn r w2 Hp Hurl -> Hs].
  - intros [= <-]. discriminate.
  - intros [= <-]. discriminate.
  - injection Hp as <-. cbn [Upsert.client Upsert.world].
    change (table_of (snd (client_end w2)) ?u) with (table_of w2 u).
    destruct Hs as [ msg w2 _ _ | msg w2 _ _ | w2 _ _ _ _
                   | msg w2 _ _ _ | now w2 Hh _ Hs _ | w2 _ _ _
                   | msg w2 _ _ _ | now w2 Hh Hs _ ];
      intros [= <-]; try discriminate; intros _.
    + apply hits_some in Hh as (r0 & Hin & Hk).
      destruct (updated_row_keeps (Upsert.fields b) now r0) as (K1 & _ & K3).
      exists (updated_row (Upsert.fields b) now r0).
      split; [|split].
      * rewrite (table_of_insert w2 _ _ _ _ Hs).
        destruct (decide (_ = _)); [|congruence].
        apply touch_elem; [exact Hin | apply matches_spec, Hk].
      * rewrite K1. exact Hk.
      * left. rewrite K3. reflexivity.
    + exists (created_row (Upsert.fields b) now). split; [|split].
      * rewrite (table_of_insert w2 _ _ _ _ Hs).
        destruct (decide (_ = _)); [|congruence].
        apply elem_of_app. right. left.
      * reflexivity.
      * right. reflexivity.
Qed.

Lemma Upsert_success_means_stored_witness :
  exists row,
    row ∈ table_of (snd (Upsert.handler sample_cfg (post version_body)
                           seeded_world)) staging
    /\ app_id row = JStr "a1".
Proof.
  destruct (Upsert_success_means_stored sample_cfg version_body seeded_world
              {| status := 200;
                 body := BUpdated (JStr "staging") (JStr "a1") (Some 11) |})
    as (row & Hin & Hid & _);
    [ eexists; reflexivity | | vm_compute; reflexivity | reflexivity | ].
  { intros r Hr. vm_compute in Hr.
    apply list_elem_of_In in Hr. simpl in Hr.
    destruct Hr as [<-|[<-|[]]]; eexists; reflexivity. }
  exists row. split; [exact Hin | exact Hid].
Defined.

(** The client calls of one strict request, under any fault script: none, or
    a connect on a configured connection string followed by at most the one
    [UPDATE] and then, only when that statement succeeded, the end call. *)
Theorem Strict_session_shape cfg req w :
  exists tr,
    trace (snd (Strict.handler cfg req w)) = trace w ++ tr
    /\ (tr = []
        \/ exists b conn,
             payload req = Some b
             /\ conn = connection_string (getDbUrl cfg (get_prop b "env"))
             /\ configured cfg conn
             /\ (tr = [EvConnect conn]
                 \/ tr = [EvConnect conn;
                          EvQuery
                            (Update [SetParam c_app_code 1 false;
                                     SetUpdatedAt NOW] 2)
                            [get_prop b "appCode"; get_prop b "appId"]]
                 \/ (tr = [EvConnect conn;
                           EvQuery
                             (Update [SetParam c_app_code 1 false;
                                      SetUpdatedAt NOW] 2)
                             [get_prop b "appCode"; get_prop b "appId"];
                           EvEnd]
                     /\ exists resp,
                          fst (Strict.handler cfg req w) = Ok resp
                          /\ (status resp = 200 \/ status resp = 404)))).
Proof.
  unfold Strict.handler.
  destruct (negb _ || negb _);
    [exists []; rewrite app_nil_r; auto|].
  unfold try_catch, Strict.catch_block.
  destruct (Strict.try_block cfg req w) as [r w'] eqn:T.
  apply Strict_try_block_outcome in T
    as [[-> _] | (b & Hp & Hurl & Hs)].
  { exists []. rewrite app_nil_r. destruct r; auto. }
  pose proof (getDbUrl_configured _ _ Hurl) as Hconf.
  destruct Hs as [ msg w2 _ Ht | msg w2 _ Ht | now w2 _ _ Ht
                 | now w2 _ _ Ht ];
    cbn [snd fst ret]; rewrite Ht; eexists; (split; [reflexivity|]); right;
    exists b, (connection_string (getDbUrl cfg (get_prop b "env")));
    (split; [exact Hp|]); (split; [reflexivity|]); (split; [exact Hconf|]).
  - auto.
  - auto.
  - right. right. split; [reflexivity|]. eexists. split; [reflexivity|].
    auto.
  - right. right. split; [reflexivity|]. eexists. split; [reflexivity|].
    auto.
Qed.

(** ** The tags of a created record *)

(** Every [INSERT] the upsert handler sends is bound to [insertValues] of
    the request's descriptor, whatever the tables and the fault script. *)
Lemma Upsert_insert_sent cfg b w tr ps :
  trace (snd (Upsert.handler cfg (post b) w)) = trace w ++ tr ->
  EvQuery Insert ps ∈ tr ->
  ps = Upsert.insertValues (Upsert.fields b).
Proof.
  destruct (Upsert_handler_outcome cfg (post b) w)
    as [[Hroute _] | (_ & r & fr & Hout & ->)]; [discriminate Hroute|].
  cbn [snd].
  destruct Hout as [msg ? | error | b' conn r w2 Hp Hurl -> Hs].
  - cbn [Upsert.client Upsert.world]. intros Ht Hin.
    rewrite <- (app_nil_r (trace w)) in Ht at 1.
    apply app_inv_head in Ht. subst tr. inversion Hin.
  - cbn [Upsert.client Upsert.world]. intros Ht Hin.
    rewrite <- (app_nil_r (trace w)) in Ht at 1.
    apply app_inv_head in Ht. subst tr. inversion Hin.
  - injection Hp as <-. cbn [Upsert.client Upsert.world].
    change (trace (snd (client_end w2))) with (trace w2 ++ [EvEnd]).
    unfold Upsert.updateQuery in Hs.
    destruct Hs as [ msg w2 _ Ht | msg w2 _ Ht | w2 _ _ _ Ht
                   | msg w2 _ _ Ht | now w2 _ _ _ Ht | w2 _ _ Ht
                   | msg w2 _ _ Ht | now w2 _ _ Ht ];
      rewrite Ht, <- app_assoc; intros E Hin;
      apply app_inv_head in E; subst tr;
      apply list_elem_of_In in Hin; simpl in Hin;
      repeat (destruct Hin as [Hin | Hin]; [try discriminate Hin|]);
      try contradiction;
      injection Hin as <-; reflexivity.
Qed.

(** C4. Upsert variant. For a body that carries no [tags]: every [INSERT]
    the handler sends -- in any world, under any fault script -- binds the
    empty array to the [tags] column, and the text the driver sends for it is
    [{}], the serialized empty document, not SQL [NULL].  When the creation
    goes through (no store fault, string keys, no row with the request's
    [appId], the five creation fields truthy) the answer is [200 created] and
    the row added to the table holds that value in [tags]. *)
Theorem C4_creation_without_tags cfg b w :
  get_prop b "tags" = JUndefined ->
  (forall tr ps,
     trace (snd (Upsert.handler cfg (post b) w)) = trace w ++ tr ->
     EvQuery Insert ps ∈ tr ->
     ps = Upsert.insertValues (Upsert.fields b)
     /\ ps !! 7 = Some (JArr [])
     /\ prepareValue <$> ps !! 7 = Some (Some "{}")
     /\ prepareValue <$> ps !! 7 <> Some None)
  /\ (b <> JNull -> b <> JUndefined ->
      truthy (get_prop b "env") = true ->
      (exists s, get_prop b "appId" = JStr s /\ s <> EmptyString) ->
      truthy (getDbUrl cfg (get_prop b "env")) = true ->
      faults w = [] ->
      string_keyed
        (table_of w (connection_string (getDbUrl cfg (get_prop b "env")))) ->
      (forall r,
         r ∈ table_of w
               (connection_string (getDbUrl cfg (get_prop b "env"))) ->
         app_id r <> get_prop b "appId") ->
      truthy (get_prop b "appName") = true ->
      truthy (get_prop b "appVersion") = true ->
      truthy (get_prop b "appCode") = true ->
      truthy (get_prop b "hasTriggers") = true ->
      truthy (get_prop b "hasActions") = true ->
      fst (Upsert.handler cfg (post b) w)
      = Ok {| status := 200;
              body := BCreated (get_prop b "env") (get_prop b "appId")
                        (Some (S (clock w))) |}
      /\ exists row,
           table_of (snd (Upsert.handler cfg (post b) w))
             (connection_string (getDbUrl cfg (get_prop b "env")))
           = table_of w
               (connection_string (getDbUrl cfg (get_prop b "env")))
             ++ [row]
           /\ app_id row = get_prop b "appId"
           /\ tags row = JArr []
           /\ prepareValue (tags row) = Some "{}").
Proof.
  intros Htags. split.
  - intros tr ps Ht Hin.
    rewrite (Upsert_insert_sent cfg b w tr ps Ht Hin).
    split; [reflexivity|].
    unfold Upsert.insertValues.
    change (Upsert.tags (Upsert.fields b)) with (get_prop b "tags").
    rewrite Htags. repeat split. discriminate.
  - intros Hnull Hundef Henv (s & Hs & Hne) Hurl Hf _ Hfree Hn Hv Hc Ht Ha.
    assert (truthy (get_prop b "appId") = true) as Hid.
    { rewrite Hs. simpl.
      destruct (String.eqb_spec s EmptyString); [contradiction|reflexivity]. }
    rewrite Upsert_create_run by assumption.
    split; [reflexivity|]. cbn [snd].
    exists (created_row (Upsert.fields b) (S (clock w))).
    split.
    { erewrite table_of_insert by reflexivity.
      destruct (decide (_ = _)); [reflexivity | congruence]. }
    split; [reflexivity|].
    unfold created_row. cbn [tags].
    change (Upsert.tags (Upsert.fields b)) with (get_prop b "tags").
    rewrite Htags. split; reflexivity.
Qed.

Lemma C4_witness :
  fst (Upsert.handler sample_cfg (post creation_body) seeded_world)
  = Ok {| status := 200;
          body := BCreated (JStr "staging") (JStr "new") (Some 11) |}
  /\ prepareValue
       <$> (tags <$> last (table_of
                             (snd (Upsert.handler sample_cfg
                                     (post creation_body) seeded_world))
                             staging))
     = Some (Some "{}").
Proof.
  destruct (C4_creation_without_tags sample_cfg creation_body seeded_world)
    as [_ H]; [reflexivity|].
  destruct H as (R & row & T & _ & Htag & Hwire);
    [ discriminate | discriminate | reflexivity
    | exists "new"; split; [reflexivity | discriminate]
    | reflexivity | reflexivity | | | reflexivity | reflexivity
    | reflexivity | reflexivity | reflexivity | ].
  - intros r Hr. vm_compute in Hr.
    apply list_elem_of_In in Hr. simpl in Hr.
    destruct Hr as [<-|[<-|[]]]; eexists; reflexivity.
  - intros r Hr. vm_compute in Hr.
    apply list_elem_of_In in Hr. simpl in Hr.
    destruct Hr as [<-|[<-|[]]]; discriminate.
  - split; [exact R|].
    change (connection_string _) with staging in T.
    rewrite T, last_snoc. cbn [fmap option_fmap option_map].
    rewrite Hwire. reflexivity.
Defined.
